(** * Self-adaptive MQTT publisher: broker registry, score model,
    offline queue and session manager.

    Shallow embedding of
    - [examples/self_adaptive_publisher/broker_monitor_thread.h]
      (the [BrokerInfo] / [BrokerListManager] implementation),
    - [score_weights.h] ([CATEGORY_WEIGHTS]),
    - [mqtt_manager.cpp] ([SelfAdaptiveMqttManager]).

    Numbers held in [double] are modelled as exact rationals [Q]; the
    [int] connection count as [Z]; [size_t] indices as [nat]; the
    [steady_clock] time points as [nat] ticks passed in by the caller.
    The external MQTT client is an oracle: [reachable u] is the outcome of
    connecting a fresh client to [u], and [pub_ok] the outcome of one
    publish on the client bound to a broker. *)

From Stdlib Require Import String List Bool Arith Lia ZArith QArith Qminmax Lqa.
Import ListNotations.
Open Scope string_scope.
Open Scope nat_scope.

(** ** Score weights ([score_weights.h]) *)

Record ScoreWeights := mkWeights {
  sw_latency : Q;
  sw_bandwidth : Q;
  sw_connection : Q
}.

(** [static const std::map<std::string, ScoreWeights> CATEGORY_WEIGHTS]. *)
Definition CATEGORY_WEIGHTS : list (string * ScoreWeights) := [
  ("sensor",    mkWeights (6#10) (2#10) (2#10));
  ("camera",    mkWeights (2#10) (6#10) (2#10));
  ("meter",     mkWeights (6#10) (2#10) (2#10));
  ("light",     mkWeights (6#10) (2#10) (2#10));
  ("appliance", mkWeights (6#10) (2#10) (2#10));
  ("wearable",  mkWeights (3#10) (4#10) (3#10));
  ("beacon",    mkWeights (6#10) (2#10) (2#10));
  ("traffic",   mkWeights (4#10) (2#10) (4#10));
  ("drone",     mkWeights (3#10) (5#10) (2#10));
  ("rfid",      mkWeights (3#10) (2#10) (5#10));
  ("signage",   mkWeights (2#10) (6#10) (2#10))
].

Fixpoint map_find (k : string) (m : list (string * ScoreWeights)) : option ScoreWeights :=
  match m with
  | [] => None
  | (k', v) :: m' => if String.eqb k k' then Some v else map_find k m'
  end.

Definition sensor_weights : ScoreWeights := mkWeights (6#10) (2#10) (2#10).

(** [CATEGORY_WEIGHTS.count(category_) ? CATEGORY_WEIGHTS.at(category_)
     : CATEGORY_WEIGHTS.at("sensor")] *)
Definition weights_for (category : string) : ScoreWeights :=
  match map_find category CATEGORY_WEIGHTS with
  | Some w => w
  | None => match map_find "sensor" CATEGORY_WEIGHTS with
            | Some w => w
            | None => sensor_weights
            end
  end.

(** ** Broker record ([class BrokerInfo]) *)

Record BrokerInfo := mkBroker {
  uri : string;
  latency : Q;
  bandwidth : Q;
  connection_count : Z;
  score : Q;
  is_available : bool;
  last_check : nat
}.

(** [BrokerInfo::BrokerInfo(const std::string&)] *)
Definition new_broker (broker_uri : string) (now : nat) : BrokerInfo :=
  mkBroker broker_uri 0%Q 0%Q 0%Z 0%Q true now.

(** strict [<] on doubles *)
Definition Qltb (a b : Q) : bool := negb (Qle_bool b a).

Definition LATENCY_BASELINE : Q := 100%Q.
Definition BANDWIDTH_BASELINE : Q := 1000000%Q.
Definition CONNECTION_BASELINE : Z := 100%Z.

Definition latency_score (b : BrokerInfo) : Q :=
  (if Qltb 0 (latency b) then Qmax 0 (1 - latency b / LATENCY_BASELINE) else 0)%Q.

Definition bandwidth_score (b : BrokerInfo) : Q :=
  (if Qltb 0 (bandwidth b) then Qmin 1 (bandwidth b / BANDWIDTH_BASELINE) else 0)%Q.

Definition connection_score (b : BrokerInfo) : Q :=
  (if Z.ltb 0 (connection_count b)
   then Qmax 0 (1 - inject_Z (connection_count b) / inject_Z CONNECTION_BASELINE)
   else 0)%Q.

(** [void BrokerInfo::update_score(const ScoreWeights& weights)] *)
Definition update_score (weights : ScoreWeights) (b : BrokerInfo) : BrokerInfo :=
  let s := (latency_score b * sw_latency weights
            + bandwidth_score b * sw_bandwidth weights
            + connection_score b * sw_connection weights)%Q in
  let s := if negb (is_available b) then 0%Q else s in
  mkBroker (uri b) (latency b) (bandwidth b) (connection_count b) s
           (is_available b) (last_check b).

(** ** Broker registry ([class BrokerListManager]) *)

Record BrokerListManager := mkRegistry {
  brokers : list BrokerInfo;
  current_broker_index : nat;
  category : string
}.

(** [BrokerListManager(const std::string& category = "sensor")] *)
Definition new_registry (c : string) : BrokerListManager := mkRegistry [] 0 c.

Definition has_uri (u : string) (b : BrokerInfo) : bool := String.eqb (uri b) u.

(** [void add_broker(const std::string& uri)] *)
Definition add_broker (r : BrokerListManager) (u : string) (now : nat) : BrokerListManager :=
  if existsb (has_uri u) (brokers r) then r
  else
    let bs := (brokers r ++ [new_broker u now])%list in
    mkRegistry bs
      (if Nat.eqb (length bs) 1 then 0 else current_broker_index r)
      (category r).

(** [std::find_if] as an index *)
Fixpoint find_index (u : string) (bs : list BrokerInfo) : option nat :=
  match bs with
  | [] => None
  | b :: bs' => if has_uri u b then Some 0
                else option_map S (find_index u bs')
  end.

(** [brokers_.erase(it)] *)
Fixpoint erase_at {A} (i : nat) (l : list A) : list A :=
  match l, i with
  | [], _ => []
  | _ :: l', 0 => l'
  | x :: l', S i' => x :: erase_at i' l'
  end.

(** [void remove_broker(const std::string& uri)] *)
Definition remove_broker (r : BrokerListManager) (u : string) : BrokerListManager :=
  match find_index u (brokers r) with
  | None => r
  | Some removed_index =>
      let bs := erase_at removed_index (brokers r) in
      let cur := current_broker_index r in
      let cur' :=
        if Nat.eqb removed_index cur then
          match bs with
          | [] => 0
          | _ => if Nat.leb (length bs) cur then length bs - 1 else cur
          end
        else if Nat.ltb removed_index cur then cur - 1
        else cur in
      mkRegistry bs cur' (category r)
  end.

(** [void clear_brokers()] *)
Definition clear_brokers (r : BrokerListManager) : BrokerListManager :=
  mkRegistry [] 0 (category r).

(** [std::shared_ptr<BrokerInfo> get_current_broker_internal() const] *)
Definition get_current_broker (r : BrokerListManager) : option BrokerInfo :=
  match brokers r with
  | [] => None
  | _ => if Nat.leb (length (brokers r)) (current_broker_index r) then None
         else nth_error (brokers r) (current_broker_index r)
  end.

(** [bool set_current_broker(const std::string& uri)] *)
Definition set_current_broker (r : BrokerListManager) (u : string) : bool * BrokerListManager :=
  match find_index u (brokers r) with
  | Some i => (true, mkRegistry (brokers r) i (category r))
  | None => (false, r)
  end.

(** The loop of [find_best_broker_internal], from the sentinel
    [best_score = -1.0]. *)
Fixpoint find_best_loop (bs : list BrokerInfo) (best : option BrokerInfo) (best_score : Q)
  : option BrokerInfo :=
  match bs with
  | [] => best
  | b :: bs' =>
      if is_available b && Qltb best_score (score b)
      then find_best_loop bs' (Some b) (score b)
      else find_best_loop bs' best best_score
  end.

(** [std::shared_ptr<BrokerInfo> find_best_broker_internal() const] *)
Definition find_best_broker (r : BrokerListManager) : option BrokerInfo :=
  match brokers r with
  | [] => None
  | bs => find_best_loop bs None (-1)%Q
  end.

Definition SWITCH_THRESHOLD : Q := 1#10.

(** [bool should_switch_broker() const] *)
Definition should_switch_broker (r : BrokerListManager) : bool :=
  match get_current_broker r, find_best_broker r with
  | Some current, Some best =>
      if negb (String.eqb (uri current) (uri best))
      then Qltb SWITCH_THRESHOLD (score best - score current)%Q
      else false
  | _, _ => false
  end.

(** the [for (auto& broker : brokers_) if (broker->uri == uri) { ...; break; }]
    pattern: update the first record with the given URI *)
Fixpoint update_first (u : string) (f : BrokerInfo -> BrokerInfo) (bs : list BrokerInfo)
  : list BrokerInfo :=
  match bs with
  | [] => []
  | b :: bs' => if has_uri u b then f b :: bs' else b :: update_first u f bs'
  end.

(** [void update_broker_metrics(uri, latency, bandwidth, connection_count)] *)
Definition update_broker_metrics (r : BrokerListManager) (u : string)
    (lat bw : Q) (cc : Z) (now : nat) : BrokerListManager :=
  let weights := weights_for (category r) in
  mkRegistry
    (update_first u (fun b =>
       update_score weights
         (mkBroker (uri b) lat bw cc (score b) (is_available b) now))
       (brokers r))
    (current_broker_index r) (category r).

(** [void mark_broker_unavailable(const std::string& uri)] *)
Definition mark_broker_unavailable (r : BrokerListManager) (u : string) : BrokerListManager :=
  mkRegistry
    (update_first u (fun b =>
       mkBroker (uri b) (latency b) (bandwidth b) (connection_count b) 0%Q false (last_check b))
       (brokers r))
    (current_broker_index r) (category r).

(** [void mark_broker_available(const std::string& uri)] *)
Definition mark_broker_available (r : BrokerListManager) (u : string) : BrokerListManager :=
  let weights := weights_for (category r) in
  mkRegistry
    (update_first u (fun b =>
       update_score weights
         (mkBroker (uri b) (latency b) (bandwidth b) (connection_count b) (score b) true (last_check b)))
       (brokers r))
    (current_broker_index r) (category r).

(** [bool is_broker_available(const std::string& uri) const] *)
Fixpoint is_broker_available_in (u : string) (bs : list BrokerInfo) : bool :=
  match bs with
  | [] => false
  | b :: bs' => if has_uri u b then is_available b else is_broker_available_in u bs'
  end.

Definition is_broker_available (r : BrokerListManager) (u : string) : bool :=
  is_broker_available_in u (brokers r).

(** The registry operations, as one step relation. *)
Inductive registry_step : BrokerListManager -> BrokerListManager -> Prop :=
| rs_add r u now : registry_step r (add_broker r u now)
| rs_remove r u : registry_step r (remove_broker r u)
| rs_clear r : registry_step r (clear_brokers r)
| rs_set_current r u : registry_step r (snd (set_current_broker r u))
| rs_update_metrics r u lat bw cc now :
    registry_step r (update_broker_metrics r u lat bw cc now)
| rs_mark_unavailable r u : registry_step r (mark_broker_unavailable r u)
| rs_mark_available r u : registry_step r (mark_broker_available r u).

(** States reachable from a freshly constructed registry. *)
Inductive registry_reachable : BrokerListManager -> Prop :=
| rr_init c : registry_reachable (new_registry c)
| rr_step r r' : registry_reachable r -> registry_step r r' -> registry_reachable r'.

(** ** Offline queue and session manager ([class SelfAdaptiveMqttManager]) *)

(** The application message handed to [client_->publish(topic, payload, qos, retained)]. *)
Record Message := mkMessage {
  msg_topic : string;
  msg_payload : string;
  msg_qos : Z;
  msg_retained : bool
}.

(** [struct QueuedMessage { topic; payload; qos; retained; timestamp; }] *)
Record QueuedMessage := mkQueued {
  topic : string;
  payload : string;
  qos : Z;
  retained : bool;
  timestamp : nat
}.

Definition to_message (q : QueuedMessage) : Message :=
  mkMessage (topic q) (payload q) (qos q) (retained q).

Definition MAX_QUEUE_SIZE : nat := 1000.

(** [std::queue]: the front is the head of the list, [pop] drops the head,
    [push] appends at the back. *)
Definition queue_pop {A} (q : list A) : list A := tl q.
Definition queue_push {A} (q : list A) (x : A) : list A := (q ++ [x])%list.

(** The queue operations of [add_message_to_queue]: pop when full, then push. *)
Definition enqueue (q : list QueuedMessage) (msg : QueuedMessage) : list QueuedMessage :=
  let q := if Nat.leb MAX_QUEUE_SIZE (length q) then queue_pop q else q in
  queue_push q msg.

(** The observable state of the manager. [client] is [client_]: [None] for
    a reset [unique_ptr], [Some u] for a client created for broker [u].
    [delivered] is the log of the publishes accepted by a client, in order,
    with the broker of the client that took them. *)
Record Manager := mkManager {
  client : option string;
  broker_manager : BrokerListManager;
  is_connected : bool;
  is_connecting : bool;
  message_queue : list QueuedMessage;
  current_broker_try_index : nat;
  delivered : list (string * Message)
}.

Definition set_client (m : Manager) (c : option string) : Manager :=
  mkManager c (broker_manager m) (is_connected m) (is_connecting m)
    (message_queue m) (current_broker_try_index m) (delivered m).
Definition set_registry (m : Manager) (r : BrokerListManager) : Manager :=
  mkManager (client m) r (is_connected m) (is_connecting m)
    (message_queue m) (current_broker_try_index m) (delivered m).
Definition set_flags (m : Manager) (connected connecting : bool) : Manager :=
  mkManager (client m) (broker_manager m) connected connecting
    (message_queue m) (current_broker_try_index m) (delivered m).
Definition set_connecting (m : Manager) (connecting : bool) : Manager :=
  set_flags m (is_connected m) connecting.
Definition set_queue (m : Manager) (q : list QueuedMessage) : Manager :=
  mkManager (client m) (broker_manager m) (is_connected m) (is_connecting m)
    q (current_broker_try_index m) (delivered m).
Definition set_try_index (m : Manager) (i : nat) : Manager :=
  mkManager (client m) (broker_manager m) (is_connected m) (is_connecting m)
    (message_queue m) i (delivered m).
Definition set_delivered (m : Manager) (d : list (string * Message)) : Manager :=
  mkManager (client m) (broker_manager m) (is_connected m) (is_connecting m)
    (message_queue m) (current_broker_try_index m) d.

(** A manager right after construction. *)
Definition new_manager (category : string) : Manager :=
  mkManager None (new_registry category) false false [] 0 [].

(** The URIs of the available brokers of [get_all_brokers()], in order. *)
Definition available_uris (r : BrokerListManager) : list string :=
  map uri (filter is_available (brokers r)).

(** What a delivery token is about. *)
Record DeliveryToken := mkToken { tok_broker : string; tok_message : Message }.

(** How a call of the manager ends: it returns a value, it lets an
    exception escape, or it dereferences a null [client_]. *)
Inductive Outcome (A : Type) :=
| Returned : A -> Outcome A
| Raised : string -> Outcome A
| NullClient : Outcome A.
Arguments Returned {A} _.
Arguments Raised {A} _.
Arguments NullClient {A}.

Section Manager.

(** [try_connect_to_broker(u)] succeeds on a fresh client for [u]: the
    connect token completes within 10 s with return code 0. *)
Variable reachable : string -> bool.
(** [client_->publish(...)] on the client bound to a broker returns
    (true) or throws (false); it may depend on all that was published
    before. *)
Variable pub_ok : list (string * Message) -> string -> Message -> bool.

(** [void add_message_to_queue(topic, payload, qos, retained)] *)
Definition add_message_to_queue (m : Manager) (t p : string) (q : Z) (ret : bool) (now : nat)
  : Manager :=
  set_queue m (enqueue (message_queue m) (mkQueued t p q ret now)).

(** The [while] loop of [resend_queued_messages]: publish the front, pop it
    on success, [break] on an exception. Returns the remaining queue and the
    log. *)
Fixpoint resend_loop (u : string) (log : list (string * Message)) (q : list QueuedMessage)
  : list QueuedMessage * list (string * Message) :=
  match q with
  | [] => ([], log)
  | qm :: q' =>
      if pub_ok log u (to_message qm)
      then resend_loop u (log ++ [(u, to_message qm)])%list q'  (* message_queue_.pop() *)
      else (q, log)
  end.

(** [void resend_queued_messages()]. Every caller runs it right after a
    successful [try_connect_to_broker], so [client_] is set; the [None]
    branch (a null dereference in the source) is never taken. *)
Definition resend_queued_messages (m : Manager) : Manager :=
  match client m with
  | None => m
  | Some u =>
      let (q, log) := resend_loop u (delivered m) (message_queue m) in
      set_delivered (set_queue m q) log
  end.

(** [bool try_connect_to_broker(const std::string& broker_uri)]:
    [create_client] replaces [client_], then the connect is attempted. *)
Definition try_connect_to_broker (u : string) (m : Manager) : bool * Manager :=
  (reachable u, set_client m (Some u)).

(** The success branch shared by [connect], [handle_connection_failure]
    and [switch_to_best_broker]: [set_current_broker], flags, try index,
    then [resend_queued_messages]. *)
Definition on_connected (u : string) (idx : nat) (m : Manager) : Manager :=
  let m := set_registry m (snd (set_current_broker (broker_manager m) u)) in
  let m := set_flags m true false in
  let m := set_try_index m idx in
  resend_queued_messages m.

(** The [for] loop of [connect()], over the snapshot [uris] from index [i]. *)
Fixpoint connect_loop (uris : list string) (i : nat) (m : Manager) : bool * Manager :=
  match uris with
  | [] => (false, set_connecting m false)
  | target :: rest =>
      let (ok, m) := try_connect_to_broker target m in
      if ok then (true, on_connected target i m)
      else connect_loop rest (S i)
             (set_registry m (mark_broker_unavailable (broker_manager m) target))
  end.

(** [bool connect()] *)
Definition connect (m : Manager) : bool * Manager :=
  if is_connected m || is_connecting m then (is_connected m, m)
  else
    let m := set_connecting m true in
    match available_uris (broker_manager m) with
    | [] => (false, set_connecting m false)
    | uris => connect_loop uris 0 m
    end.

(** [void handle_connection_failure(const std::string& failed_uri)].
    Each recursive call marks one more available broker unavailable, so
    [fuel] = the number of registered brokers bounds the recursion. *)
Fixpoint handle_connection_failure (fuel : nat) (failed : string) (m : Manager) : Manager :=
  let m := set_registry m (mark_broker_unavailable (broker_manager m) failed) in
  match available_uris (broker_manager m) with
  | [] => m
  | uris =>
      let idx := current_broker_try_index m in
      if Nat.ltb idx (length uris) then
        let next := nth idx uris "" in
        let (ok, m) := try_connect_to_broker next m in
        if ok then on_connected next 0 m
        else match fuel with
             | 0 => m
             | S fuel' => handle_connection_failure fuel' next (set_try_index m (S idx))
             end
      else set_connecting (set_try_index m 0) false
  end.

(** [void switch_to_best_broker()] *)
Definition switch_to_best_broker (m : Manager) : Manager :=
  if is_connecting m then m
  else
    let m := set_client (set_connecting m true) None in
    match available_uris (broker_manager m) with
    | [] => set_connecting m false
    | uris =>
        let m := if Nat.leb (length uris) (current_broker_try_index m)
                 then set_try_index m 0 else m in
        let idx := current_broker_try_index m in
        let target := nth idx uris "" in
        let (ok, m) := try_connect_to_broker target m in
        if ok then on_connected target 0 m
        else
          let m := set_try_index m (S idx) in
          let m := handle_connection_failure (length (brokers (broker_manager m))) target m in
          set_connecting m false
    end.

(** [void on_broker_switch(const std::string& new_broker_uri)]: the
    argument is only logged. *)
Definition on_broker_switch (new_broker_uri : string) (m : Manager) : Manager :=
  if should_switch_broker (broker_manager m) then switch_to_best_broker m else m.

(** [mqtt::delivery_token_ptr publish(topic, payload, qos, retained)];
    [now] is the [steady_clock] reading taken when the message is queued. *)
Definition publish (m : Manager) (t p : string) (q : Z) (ret : bool) (now : nat)
  : Outcome (option DeliveryToken) * Manager :=
  if negb (is_connected m) then
    (Returned None, add_message_to_queue m t p q ret now)
  else
    match client m with
    | None => (NullClient, m)
    | Some u =>
        let msg := mkMessage t p q ret in
        if pub_ok (delivered m) u msg
        then (Returned (Some (mkToken u msg)),
              set_delivered m (delivered m ++ [(u, msg)])%list)
        else (Returned None, add_message_to_queue m t p q ret now)
    end.

End Manager.

(** Registry pass-throughs of the manager, and the Monitor's metric update
    on the shared registry. *)
Definition mgr_add_broker (m : Manager) (u : string) (now : nat) : Manager :=
  set_registry m (add_broker (broker_manager m) u now).
Definition monitor_update_metrics (m : Manager) (u : string) (lat bw : Q) (cc : Z) (now : nat)
  : Manager :=
  set_registry m (update_broker_metrics (broker_manager m) u lat bw cc now).

Definition current_uri (r : BrokerListManager) : option string :=
  option_map uri (get_current_broker r).
Definition best_uri (r : BrokerListManager) : option string :=
  option_map uri (find_best_broker r).

(** A run: brokers A and B registered in that order, both reachable,
    [connect()] binds to A; the Monitor then measures A at 80 ms and B at
    10 ms. *)
Definition all_reachable (_ : string) : bool := true.
Definition all_publish (_ : list (string * Message)) (_ : string) (_ : Message) : bool := true.

Definition swap_scenario_before : Manager :=
  let m := new_manager "sensor" in
  let m := mgr_add_broker m "tcp://A:1883" 0 in
  let m := mgr_add_broker m "tcp://B:1883" 0 in
  let m := snd (connect all_reachable all_publish m) in
  let m := monitor_update_metrics m "tcp://A:1883" 80 0 0 1 in
  monitor_update_metrics m "tcp://B:1883" 10 0 0 2.

Example swap_before_current :
  current_uri (broker_manager swap_scenario_before) = Some "tcp://A:1883".
Proof. vm_compute. reflexivity. Qed.
Example swap_before_best :
  best_uri (broker_manager swap_scenario_before) = Some "tcp://B:1883".
Proof. vm_compute. reflexivity. Qed.
Example swap_before_switch :
  should_switch_broker (broker_manager swap_scenario_before) = true.
Proof. vm_compute. reflexivity. Qed.
Example swap_after :
  current_uri (broker_manager
    (on_broker_switch all_reachable all_publish "tcp://B:1883" swap_scenario_before))
  = Some "tcp://A:1883".
Proof. vm_compute. reflexivity. Qed.

(** ** Basic facts *)

Lemma Qltb_spec (a b : Q) : Qltb a b = true <-> (a < b)%Q.
Proof.
  unfold Qltb. rewrite negb_true_iff. split.
  - intros H. apply Qnot_le_lt. intros Hle. apply Qle_bool_iff in Hle. congruence.
  - intros H. destruct (Qle_bool b a) eqn:E; [|reflexivity].
    apply Qle_bool_iff in E. exfalso. apply (Qlt_not_le a b); assumption.
Qed.

Lemma has_uri_true (u : string) (b : BrokerInfo) : has_uri u b = true <-> uri b = u.
Proof. unfold has_uri. apply String.eqb_eq. Qed.

(** ** C3: the switch predicate *)

(** C3. [should_switch_broker] holds exactly when there is a current and a
    best record, their URIs differ and the best score exceeds the current
    one by more than 0.10; so it is false when either side is absent or
    when the best record is the current one. *)
Theorem should_switch_broker_iff (r : BrokerListManager) :
  (should_switch_broker r = true <->
   exists cur best,
     get_current_broker r = Some cur /\ find_best_broker r = Some best /\
     uri cur <> uri best /\ (score best - score cur > SWITCH_THRESHOLD)%Q) /\
  ((get_current_broker r = None \/ find_best_broker r = None) ->
   should_switch_broker r = false) /\
  (forall b, get_current_broker r = Some b -> find_best_broker r = Some b ->
   should_switch_broker r = false).
Proof.
  unfold should_switch_broker. split; [|split].
  - destruct (get_current_broker r) as [cur|] eqn:Ec;
      destruct (find_best_broker r) as [best|] eqn:Eb.
    + destruct (String.eqb (uri cur) (uri best)) eqn:Eu; simpl.
      * split; [discriminate|].
        intros (c' & b' & Hc & Hb & Hne & _). injection Hc as <-. injection Hb as <-.
        apply String.eqb_eq in Eu. contradiction.
      * rewrite Qltb_spec. split.
        -- intros H. exists cur, best. repeat split; try assumption.
           intros Heq. apply String.eqb_neq in Eu. contradiction.
        -- intros (c' & b' & Hc & Hb & _ & Hgt). injection Hc as <-. injection Hb as <-.
           exact Hgt.
    + split; [discriminate|]. intros (c' & b' & _ & Hb & _). discriminate.
    + split; [discriminate|]. intros (c' & b' & Hc & _). discriminate.
    + split; [discriminate|]. intros (c' & b' & Hc & _). discriminate.
  - intros [H|H]; rewrite H; [reflexivity|].
    destruct (get_current_broker r); reflexivity.
  - intros b Hc Hb. rewrite Hc, Hb, String.eqb_refl. reflexivity.
Qed.

(** ** C5: the bounded offline queue *)

Lemma enqueue_length (q : list QueuedMessage) (x : QueuedMessage) :
  length q <= MAX_QUEUE_SIZE -> length (enqueue q x) <= MAX_QUEUE_SIZE.
Proof.
  unfold enqueue, queue_push, queue_pop. intros H.
  destruct (Nat.leb MAX_QUEUE_SIZE (length q)) eqn:E.
  - apply Nat.leb_le in E. rewrite length_app. simpl.
    destruct q as [|y q']; simpl in *; unfold MAX_QUEUE_SIZE in *; lia.
  - apply Nat.leb_gt in E. rewrite length_app. simpl. lia.
Qed.

Lemma enqueue_full (q : list QueuedMessage) (x : QueuedMessage) :
  length q = MAX_QUEUE_SIZE -> enqueue q x = (tl q ++ [x])%list.
Proof.
  unfold enqueue, queue_push, queue_pop. intros H. rewrite H, Nat.leb_refl. reflexivity.
Qed.

Lemma enqueue_not_full (q : list QueuedMessage) (x : QueuedMessage) :
  length q < MAX_QUEUE_SIZE -> enqueue q x = (q ++ [x])%list.
Proof.
  unfold enqueue, queue_push. intros H.
  destruct (Nat.leb MAX_QUEUE_SIZE (length q)) eqn:E; [|reflexivity].
  apply Nat.leb_le in E. lia.
Qed.

Lemma enqueue_all_length (ms q : list QueuedMessage) :
  length q <= MAX_QUEUE_SIZE -> length (fold_left enqueue ms q) <= MAX_QUEUE_SIZE.
Proof.
  revert q. induction ms as [|x ms IH]; intros q H; simpl; [exact H|].
  apply IH, enqueue_length, H.
Qed.

Lemma enqueue_all_no_drop (ms q : list QueuedMessage) :
  length q + length ms <= MAX_QUEUE_SIZE -> fold_left enqueue ms q = (q ++ ms)%list.
Proof.
  revert q. induction ms as [|x ms IH]; intros q H; simpl.
  - rewrite app_nil_r. reflexivity.
  - simpl in H. rewrite enqueue_not_full by lia. rewrite IH.
    + rewrite <- app_assoc. reflexivity.
    + rewrite length_app. simpl. lia.
Qed.

(** C5. Starting from the empty queue, every sequence of enqueues leaves at
    most 1000 entries; an enqueue on a queue of 1000 entries drops exactly the
    front (oldest) entry and appends the new one; so enqueuing 1001 messages
    into the empty queue leaves all but the first, in order. *)
Theorem offline_queue_bounded_fifo :
  (forall ms : list QueuedMessage, length (fold_left enqueue ms []) <= MAX_QUEUE_SIZE) /\
  (forall q x, length q = MAX_QUEUE_SIZE -> enqueue q x = (tl q ++ [x])%list) /\
  (forall m t p qs ret now, length (message_queue m) = MAX_QUEUE_SIZE ->
     message_queue (add_message_to_queue m t p qs ret now)
     = (tl (message_queue m) ++ [mkQueued t p qs ret now])%list) /\
  (forall ms : list QueuedMessage, length ms = S MAX_QUEUE_SIZE ->
     fold_left enqueue ms [] = tl ms).
Proof.
  split; [|split; [|split]].
  - intros ms. apply enqueue_all_length. simpl. unfold MAX_QUEUE_SIZE. lia.
  - exact enqueue_full.
  - intros m t p qs ret now H. simpl. apply enqueue_full, H.
  - intros ms H.
    destruct (exists_last (l := ms)) as (init & last & ->).
    { intros ->. discriminate. }
    rewrite length_app in H. simpl in H. unfold MAX_QUEUE_SIZE in *.
    rewrite fold_left_app, (enqueue_all_no_drop init []) by (unfold MAX_QUEUE_SIZE; simpl; lia). simpl.
    rewrite enqueue_full by (unfold MAX_QUEUE_SIZE; lia).
    destruct init as [|y init]; [simpl in H; lia|].
    reflexivity.
Qed.

(** The queue-overflow scenario: payloads numbered 1..1001. *)
Definition numbered (n : nat) : QueuedMessage := mkQueued "t" "" 1%Z false n.

Example queue_overflow_scenario :
  fold_left enqueue (map numbered (seq 1 1001)) [] = map numbered (seq 2 1000).
Proof. vm_compute. reflexivity. Qed.

(** ** Session manager facts *)

Section ManagerFacts.

Variable reachable : string -> bool.
Variable pub_ok : list (string * Message) -> string -> Message -> bool.

Definition sent_entry (u : string) (qm : QueuedMessage) : string * Message := (u, to_message qm).

Lemma resend_loop_spec (u : string) (q : list QueuedMessage) (log : list (string * Message)) :
  exists sent rest,
    resend_loop pub_ok u log q = (rest, log ++ map (sent_entry u) sent)%list /\
    q = (sent ++ rest)%list /\
    (forall k qm, nth_error sent k = Some qm ->
       pub_ok (log ++ map (sent_entry u) (firstn k sent))%list u (to_message qm) = true) /\
    match rest with
    | [] => True
    | qm :: _ => pub_ok (log ++ map (sent_entry u) sent)%list u (to_message qm) = false
    end.
Proof.
  revert log. induction q as [|qm q IH]; intros log.
  - exists [], []. simpl. rewrite app_nil_r. repeat split.
    intros [|k] x H; discriminate.
  - simpl. destruct (pub_ok log u (to_message qm)) eqn:Eok.
    + destruct (IH (log ++ [(u, to_message qm)])%list) as (sent & rest & Hrun & Hq & Hok & Hstop).
      exists (qm :: sent), rest. rewrite Hrun. simpl.
      change ((u, to_message qm)) with (sent_entry u qm) in *.
      rewrite <- !app_assoc in *. simpl in *.
      split; [reflexivity|]. split; [rewrite Hq; reflexivity|]. split; [|exact Hstop].
      intros [|k] x Hx; simpl in Hx.
      * injection Hx as <-. simpl. rewrite app_nil_r. exact Eok.
      * simpl. specialize (Hok k x Hx). rewrite <- app_assoc in Hok. exact Hok.
    + exists [], (qm :: q). simpl. rewrite app_nil_r. repeat split.
      * intros [|k] x H; discriminate.
      * exact Eok.
Qed.

(** C6. [resend_queued_messages] hands the queue to the active client front
    first: the queue splits into a prefix [sent], published in order (the
    k-th one succeeding after the k before it), and the rest [rest], which
    stays in the queue unchanged; when [rest] is not empty, its front entry
    is the one whose publish threw. *)
Theorem resend_queued_messages_fifo (m : Manager) (u : string) :
  client m = Some u ->
  exists sent rest,
    message_queue m = (sent ++ rest)%list /\
    message_queue (resend_queued_messages pub_ok m) = rest /\
    delivered (resend_queued_messages pub_ok m) = (delivered m ++ map (sent_entry u) sent)%list /\
    (forall k qm, nth_error sent k = Some qm ->
       pub_ok (delivered m ++ map (sent_entry u) (firstn k sent))%list u (to_message qm) = true) /\
    match rest with
    | [] => True
    | qm :: _ => pub_ok (delivered (resend_queued_messages pub_ok m)) u (to_message qm) = false
    end.
Proof.
  intros Hc. unfold resend_queued_messages. rewrite Hc.
  destruct (resend_loop_spec u (message_queue m) (delivered m))
    as (sent & rest & Hrun & Hq & Hok & Hstop).
  rewrite Hrun. exists sent, rest. simpl. repeat split; assumption.
Qed.

(** C7. [publish] while disconnected, or while connected when the client's
    publish throws, appends the message to the offline queue and returns no
    token; no exception leaves the call. *)
Theorem publish_queues_when_not_delivered (m : Manager) (t p : string) (q : Z) (ret : bool) (now : nat) :
  (is_connected m = false \/
   exists u, is_connected m = true /\ client m = Some u /\
             pub_ok (delivered m) u (mkMessage t p q ret) = false) ->
  publish pub_ok m t p q ret now = (Returned None, add_message_to_queue m t p q ret now).
Proof.
  unfold publish. intros [H | (u & Hconn & Hc & Hfail)].
  - rewrite H. reflexivity.
  - rewrite Hconn, Hc. simpl. rewrite Hfail. reflexivity.
Qed.

End ManagerFacts.

(** The publishes of a flush: the first two succeed, the third throws. *)
Definition first_two (log : list (string * Message)) (_ : string) (_ : Message) : bool :=
  Nat.ltb (length log) 2.

Definition flush_scenario : Manager :=
  mkManager (Some "tcp://B:1883") (new_registry "sensor") true false
    (map numbered [1; 2; 3; 4]) 0 [].

Lemma resend_queued_messages_fifo_witness :
  client flush_scenario = Some "tcp://B:1883" /\
  exists sent rest,
    message_queue flush_scenario = (sent ++ rest)%list /\
    message_queue (resend_queued_messages first_two flush_scenario) = rest /\
    delivered (resend_queued_messages first_two flush_scenario)
      = (delivered flush_scenario ++ map (sent_entry "tcp://B:1883") sent)%list /\
    (forall k qm, nth_error sent k = Some qm ->
       first_two (delivered flush_scenario ++ map (sent_entry "tcp://B:1883") (firstn k sent))%list
         "tcp://B:1883" (to_message qm) = true) /\
    match rest with
    | [] => True
    | qm :: _ => first_two (delivered (resend_queued_messages first_two flush_scenario))
                   "tcp://B:1883" (to_message qm) = false
    end.
Proof.
  split; [reflexivity|].
  apply (resend_queued_messages_fifo first_two flush_scenario "tcp://B:1883").
  reflexivity.
Defined.

Example flush_scenario_keeps_tail :
  message_queue (resend_queued_messages first_two flush_scenario) = map numbered [3; 4].
Proof. vm_compute. reflexivity. Qed.

Lemma publish_queues_when_not_delivered_witness :
  is_connected (new_manager "sensor") = false /\
  publish all_publish (new_manager "sensor") "t" "p1" 1%Z false 0
  = (Returned None, add_message_to_queue (new_manager "sensor") "t" "p1" 1%Z false 0).
Proof.
  split; [reflexivity|].
  apply (publish_queues_when_not_delivered all_publish). left. reflexivity.
Defined.

(** ** Registry lemmas used by the connection algorithms *)

Lemma update_first_uris (u : string) (f : BrokerInfo -> BrokerInfo) (bs : list BrokerInfo) :
  (forall b, uri (f b) = uri b) -> map uri (update_first u f bs) = map uri bs.
Proof.
  intros Hf. induction bs as [|b bs IH]; simpl; [reflexivity|].
  destruct (has_uri u b); simpl; rewrite ?Hf, ?IH; reflexivity.
Qed.

Lemma mark_unavailable_uris (r : BrokerListManager) (p : string) :
  map uri (brokers (mark_broker_unavailable r p)) = map uri (brokers r).
Proof. apply update_first_uris. reflexivity. Qed.

Lemma mark_unavailable_self (r : BrokerListManager) (p : string) :
  is_broker_available (mark_broker_unavailable r p) p = false.
Proof.
  unfold is_broker_available, mark_broker_unavailable. simpl.
  induction (brokers r) as [|b bs IH]; simpl; [reflexivity|].
  destruct (has_uri p b) eqn:E; simpl.
  - unfold has_uri in *. simpl. rewrite E. reflexivity.
  - rewrite E. exact IH.
Qed.

Lemma mark_unavailable_keeps (r : BrokerListManager) (p x : string) :
  is_broker_available r x = false ->
  is_broker_available (mark_broker_unavailable r p) x = false.
Proof.
  unfold is_broker_available, mark_broker_unavailable. simpl.
  induction (brokers r) as [|b bs IH]; simpl; [reflexivity|].
  intros H. destruct (has_uri p b) eqn:Ep; simpl.
  - unfold has_uri in *; simpl. destruct (String.eqb (uri b) x); [reflexivity|exact H].
  - destruct (has_uri x b); [exact H|]. apply IH, H.
Qed.

Lemma find_index_in (u : string) (bs : list BrokerInfo) :
  In u (map uri bs) ->
  exists i b, find_index u bs = Some i /\ nth_error bs i = Some b /\ uri b = u.
Proof.
  induction bs as [|b bs IH]; simpl; [contradiction|]. intros Hin.
  destruct (has_uri u b) eqn:E.
  - exists 0, b. apply has_uri_true in E. auto.
  - destruct Hin as [Heq|Hin].
    + exfalso. apply has_uri_true in Heq. congruence.
    + destruct (IH Hin) as (i & b' & Hi & Hn & Hu).
      exists (S i), b'. rewrite Hi. auto.
Qed.

Lemma set_current_brokers (r : BrokerListManager) (u : string) :
  brokers (snd (set_current_broker r u)) = brokers r.
Proof. unfold set_current_broker. destruct (find_index u (brokers r)); reflexivity. Qed.

Lemma set_current_uri (r : BrokerListManager) (u : string) :
  In u (map uri (brokers r)) -> current_uri (snd (set_current_broker r u)) = Some u.
Proof.
  intros Hin. destruct (find_index_in u (brokers r) Hin) as (i & b & Hi & Hn & Hu).
  unfold set_current_broker. rewrite Hi. unfold current_uri, get_current_broker. simpl.
  assert (Hlt : i < length (brokers r)) by (apply nth_error_Some; congruence).
  destruct (brokers r) as [|b0 bs]; [simpl in Hlt; lia|].
  destruct (Nat.leb (length (b0 :: bs)) i) eqn:E; [apply Nat.leb_le in E; lia|].
  rewrite Hn. simpl. rewrite Hu. reflexivity.
Qed.

Lemma available_uris_in (r : BrokerListManager) (u : string) :
  In u (available_uris r) -> In u (map uri (brokers r)).
Proof.
  unfold available_uris. intros H. apply in_map_iff in H. destruct H as (b & <- & Hb).
  apply filter_In in Hb. apply in_map, Hb.
Qed.

Section ConnectFacts.

Variable reachable : string -> bool.
Variable pub_ok : list (string * Message) -> string -> Message -> bool.

Lemma connect_loop_success (pre : list string) (u : string) (post : list string) (i : nat) (m : Manager) :
  Forall (fun p => reachable p = false) pre -> reachable u = true ->
  In u (map uri (brokers (broker_manager m))) ->
  exists m1,
    connect_loop reachable pub_ok (pre ++ u :: post) i m = (true, resend_queued_messages pub_ok m1) /\
    client m1 = Some u /\ current_uri (broker_manager m1) = Some u /\
    is_connected m1 = true /\ is_connecting m1 = false /\
    message_queue m1 = message_queue m /\
    Forall (fun p => is_broker_available (broker_manager m1) p = false) pre /\
    (forall x, is_broker_available (broker_manager m) x = false ->
               is_broker_available (broker_manager m1) x = false).
Proof.
  revert i m. induction pre as [|p pre IH]; intros i m Hpre Hu Hin.
  - simpl. rewrite Hu. eexists. split; [reflexivity|]. simpl.
    repeat split.
    + apply set_current_uri. exact Hin.
    + constructor.
    + intros x Hx. unfold is_broker_available in *. rewrite set_current_brokers. exact Hx.
  - inversion Hpre as [|? ? Hp Hpre']; subst.
    cbn -[set_registry set_client mark_broker_unavailable on_connected]. rewrite Hp.
    set (m' := set_registry (set_client m (Some p))
                 (mark_broker_unavailable (broker_manager (set_client m (Some p))) p)).
    assert (Hin' : In u (map uri (brokers (broker_manager m')))).
    { change (In u (map uri (brokers (mark_broker_unavailable (broker_manager m) p)))).
      rewrite mark_unavailable_uris. exact Hin. }
    destruct (IH (S i) m' Hpre' Hu Hin') as (m1 & Hrun & Hc & Hcur & Hconn & Hcing & Hq & Hall & Hkeep).
    exists m1. rewrite Hrun. repeat split; try assumption.
    + constructor; [|exact Hall]. apply Hkeep. apply mark_unavailable_self.
    + intros x Hx. apply Hkeep. apply mark_unavailable_keeps. exact Hx.
Qed.

Lemma connect_loop_failure (uris : list string) (i : nat) (m : Manager) :
  Forall (fun p => reachable p = false) uris ->
  fst (connect_loop reachable pub_ok uris i m) = false /\
  is_connecting (snd (connect_loop reachable pub_ok uris i m)) = false /\
  Forall (fun p => is_broker_available (broker_manager (snd (connect_loop reachable pub_ok uris i m))) p = false) uris /\
  (forall x, is_broker_available (broker_manager m) x = false ->
     is_broker_available (broker_manager (snd (connect_loop reachable pub_ok uris i m))) x = false).
Proof.
  revert i m. induction uris as [|p uris IH]; intros i m Hall.
  - simpl. repeat split; [constructor|]. intros x Hx. exact Hx.
  - inversion Hall as [|? ? Hp Hall']; subst.
    cbn -[set_registry set_client mark_broker_unavailable on_connected]. rewrite Hp.
    destruct (IH (S i) (set_registry (set_client m (Some p))
                 (mark_broker_unavailable (broker_manager (set_client m (Some p))) p)) Hall')
      as (Hf & Hcing & Hun & Hkeep).
    repeat split; try assumption.
    + constructor; [|exact Hun]. apply Hkeep. apply mark_unavailable_self.
    + intros x Hx. apply Hkeep. apply mark_unavailable_keeps. exact Hx.
Qed.

Lemma connect_unfold (m : Manager) :
  is_connected m = false -> is_connecting m = false ->
  available_uris (broker_manager m) <> [] ->
  connect reachable pub_ok m
  = connect_loop reachable pub_ok (available_uris (broker_manager m)) 0 (set_connecting m true).
Proof.
  intros Hc Hcing Hne. unfold connect. rewrite Hc, Hcing. cbn [orb].
  change (broker_manager (set_connecting m true)) with (broker_manager m).
  destruct (available_uris (broker_manager m)); [contradiction|reflexivity].
Qed.

(** C4. [connect()]: when already connected or connecting it returns
    [is_connected_] and changes nothing. Otherwise it walks the available
    brokers in registration order: if [u] is the first one that connects,
    it returns true, [u] is current and bound to the client, the manager is
    connected, the queue it then flushes is the queue it started with, and
    every broker tried before [u] is marked unavailable; if none connects,
    it returns false and every one of them is marked unavailable. *)
Theorem connect_fall_through (m : Manager) :
  (is_connected m || is_connecting m = true ->
   connect reachable pub_ok m = (is_connected m, m)) /\
  (forall pre u post,
     is_connected m = false -> is_connecting m = false ->
     available_uris (broker_manager m) = (pre ++ u :: post)%list ->
     Forall (fun p => reachable p = false) pre -> reachable u = true ->
     exists m1,
       connect reachable pub_ok m = (true, resend_queued_messages pub_ok m1) /\
       client m1 = Some u /\ current_uri (broker_manager m1) = Some u /\
       is_connected m1 = true /\ is_connecting m1 = false /\
       message_queue m1 = message_queue m /\
       Forall (fun p => is_broker_available (broker_manager m1) p = false) pre) /\
  (is_connected m = false -> is_connecting m = false ->
   Forall (fun p => reachable p = false) (available_uris (broker_manager m)) ->
   fst (connect reachable pub_ok m) = false /\
   is_connecting (snd (connect reachable pub_ok m)) = false /\
   Forall (fun p => is_broker_available (broker_manager (snd (connect reachable pub_ok m))) p = false)
          (available_uris (broker_manager m))).
Proof.
  split; [|split].
  - intros H. unfold connect. rewrite H. reflexivity.
  - intros pre u post Hc Hcing Havail Hpre Hu.
    assert (Hne : available_uris (broker_manager m) <> []).
    { rewrite Havail. destruct pre; discriminate. }
    rewrite (connect_unfold m Hc Hcing Hne), Havail.
    assert (Hin : In u (map uri (brokers (broker_manager (set_connecting m true))))).
    { apply available_uris_in. change (broker_manager (set_connecting m true)) with (broker_manager m).
      rewrite Havail. apply in_or_app. right. left. reflexivity. }
    destruct (connect_loop_success pre u post 0 (set_connecting m true) Hpre Hu Hin)
      as (m1 & Hrun & Hcl & Hcur & Hconn & Hcing1 & Hq & Hall & _).
    exists m1. repeat split; assumption.
  - intros Hc Hcing Hall.
    destruct (available_uris (broker_manager m)) as [|x l] eqn:Havail.
    + unfold connect. rewrite Hc, Hcing. cbn [orb].
      change (broker_manager (set_connecting m true)) with (broker_manager m).
      rewrite Havail. repeat split. constructor.
    + assert (Hne : available_uris (broker_manager m) <> []) by (rewrite Havail; discriminate).
      rewrite (connect_unfold m Hc Hcing Hne), Havail.
      destruct (connect_loop_failure (x :: l) 0 (set_connecting m true) Hall) as (Hf & Hcing' & Hun & _).
      repeat split; assumption.
Qed.

End ConnectFacts.

(** ** C1: the broker swap *)

(** C1. On [swap_scenario_before] (A and B registered and reachable, the
    session on A, the Monitor rating B far above A), [should_switch_broker]
    confirms the switch to B, the best-scored available broker; yet
    [on_broker_switch] reconnects to A: [switch_to_best_broker] starts from
    [current_broker_try_index_] in the availability-ordered list and never
    consults the scores. *)
Theorem switch_to_best_broker_ignores_best :
  should_switch_broker (broker_manager swap_scenario_before) = true /\
  best_uri (broker_manager swap_scenario_before) = Some "tcp://B:1883" /\
  current_uri (broker_manager
    (on_broker_switch all_reachable all_publish "tcp://B:1883" swap_scenario_before))
    = Some "tcp://A:1883" /\
  client (on_broker_switch all_reachable all_publish "tcp://B:1883" swap_scenario_before)
    = Some "tcp://A:1883".
Proof. vm_compute. repeat split. Qed.

(** The startup fall-through scenario: A unreachable, B and C reachable. *)
Definition only_A_down (u : string) : bool := negb (String.eqb u "tcp://A:1883").

Definition startup_scenario : Manager :=
  let m := new_manager "sensor" in
  let m := mgr_add_broker m "tcp://A:1883" 0 in
  let m := mgr_add_broker m "tcp://B:1883" 0 in
  mgr_add_broker m "tcp://C:1883" 0.

Example startup_fall_through :
  let (ok, m) := connect only_A_down all_publish startup_scenario in
  ok = true /\ current_uri (broker_manager m) = Some "tcp://B:1883" /\
  is_broker_available (broker_manager m) "tcp://A:1883" = false /\
  message_queue m = [].
Proof. vm_compute. repeat split. Qed.

(** ** C9: [add_broker] followed by [remove_broker] *)

(** The index invariant kept by every registry operation. *)
Definition index_ok (r : BrokerListManager) : Prop :=
  current_broker_index r < length (brokers r) \/
  (brokers r = [] /\ current_broker_index r = 0).

Lemma find_index_lt (u : string) (bs : list BrokerInfo) (i : nat) :
  find_index u bs = Some i -> i < length bs.
Proof.
  revert i. induction bs as [|b bs IH]; intros i H; simpl in *; [discriminate|].
  destruct (has_uri u b).
  - injection H as <-. lia.
  - destruct (find_index u bs) as [j|] eqn:E; simpl in H; [|discriminate].
    injection H as <-. specialize (IH j eq_refl). lia.
Qed.

Lemma erase_at_length {A} (i : nat) (l : list A) :
  i < length l -> length (erase_at i l) = length l - 1.
Proof.
  revert i. induction l as [|x l IH]; intros i H; simpl in *; [lia|].
  destruct i as [|i]; simpl; [lia|]. rewrite IH by lia. lia.
Qed.

Lemma update_first_length (u : string) (f : BrokerInfo -> BrokerInfo) (bs : list BrokerInfo) :
  length (update_first u f bs) = length bs.
Proof.
  induction bs as [|b bs IH]; simpl; [reflexivity|]. destruct (has_uri u b); simpl; congruence.
Qed.

Lemma registry_step_index_ok (r r' : BrokerListManager) :
  registry_step r r' -> index_ok r -> index_ok r'.
Proof.
  unfold index_ok. intros Hs Hok. destruct Hs as [r u now|r u|r|r u|r u lat bw cc now|r u|r u].
  - unfold add_broker. destruct (existsb (has_uri u) (brokers r)); [exact Hok|]. simpl.
    rewrite length_app. simpl. left.
    destruct (Nat.eqb (length (brokers r) + 1) 1) eqn:E.
    + lia.
    + apply Nat.eqb_neq in E. destruct Hok as [Hlt | (Hnil & _)]; [lia|].
      rewrite Hnil in E. simpl in E. lia.
  - unfold remove_broker. destruct (find_index u (brokers r)) as [ri|] eqn:Ef; [|exact Hok].
    simpl. pose proof (find_index_lt u (brokers r) ri Ef) as Hri.
    pose proof (erase_at_length ri (brokers r) Hri) as Hlen.
    destruct (Nat.eqb ri (current_broker_index r)) eqn:E1.
    + destruct (erase_at ri (brokers r)) as [|y l] eqn:Ebs; [right; auto|].
      left. cbn [brokers current_broker_index].
      destruct (Nat.leb _ _) eqn:E2.
      * cbn [Datatypes.length]. lia.
      * apply Nat.leb_gt in E2. exact E2.
    + apply Nat.eqb_neq in E1. left.
      destruct (Nat.ltb ri (current_broker_index r)) eqn:E2.
      * apply Nat.ltb_lt in E2. destruct Hok as [Hlt|(Hnil & _)]; [lia|].
        rewrite Hnil in Hri. simpl in Hri. lia.
      * apply Nat.ltb_ge in E2. lia.
  - right. auto.
  - unfold set_current_broker. destruct (find_index u (brokers r)) as [i|] eqn:Ef; simpl; [|exact Hok].
    left. apply (find_index_lt u), Ef.
  - simpl. rewrite update_first_length.
    destruct Hok as [H|(Hnil & H0)]; [left; exact H|right; rewrite Hnil; auto].
  - simpl. rewrite update_first_length.
    destruct Hok as [H|(Hnil & H0)]; [left; exact H|right; rewrite Hnil; auto].
  - simpl. rewrite update_first_length.
    destruct Hok as [H|(Hnil & H0)]; [left; exact H|right; rewrite Hnil; auto].
Qed.

Lemma registry_reachable_index_ok (r : BrokerListManager) :
  registry_reachable r -> index_ok r.
Proof.
  induction 1 as [c|r r' _ IH Hs].
  - right. auto.
  - apply (registry_step_index_ok r r' Hs IH).
Qed.

Lemma find_index_app_last (u : string) (bs : list BrokerInfo) (x : BrokerInfo) :
  existsb (has_uri u) bs = false -> has_uri u x = true ->
  find_index u (bs ++ [x])%list = Some (length bs).
Proof.
  intros Hn Hx. induction bs as [|b bs IH]; simpl in *.
  - rewrite Hx. reflexivity.
  - apply orb_false_iff in Hn. destruct Hn as (Hb & Hn). rewrite Hb, IH by exact Hn. reflexivity.
Qed.

Lemma erase_at_app_last {A} (l : list A) (x : A) : erase_at (length l) (l ++ [x])%list = l.
Proof. induction l as [|y l IH]; simpl; [reflexivity|]. rewrite IH. reflexivity. Qed.

Lemma add_remove_fresh (r : BrokerListManager) (u : string) (now : nat) :
  index_ok r -> existsb (has_uri u) (brokers r) = false ->
  remove_broker (add_broker r u now) u = r.
Proof.
  intros Hok Hn. unfold add_broker. rewrite Hn. unfold remove_broker. cbn [brokers].
  rewrite find_index_app_last by (exact Hn || apply String.eqb_refl).
  cbn [current_broker_index category]. rewrite erase_at_app_last.
  destruct r as [bs cur c]. unfold index_ok in Hok. cbn [brokers current_broker_index] in *.
  destruct bs as [|b bs].
  - destruct Hok as [Hlt|(_ & ->)]; [simpl in Hlt; lia|]. reflexivity.
  - rewrite length_app. cbn [length].
    replace (Nat.eqb (S (length bs) + 1) 1) with false by (symmetry; apply Nat.eqb_neq; lia).
    destruct Hok as [Hlt|(Hnil & _)]; [|discriminate]. simpl in Hlt.
    replace (Nat.eqb (S (length bs)) cur) with false by (symmetry; apply Nat.eqb_neq; lia).
    replace (Nat.ltb (S (length bs)) cur) with false by (symmetry; apply Nat.ltb_ge; lia).
    reflexivity.
Qed.

(** A registry holding only [u], current at index 0. *)
Definition registry_with_u : BrokerListManager :=
  add_broker (new_registry "sensor") "tcp://u:1883" 0.

(** C9, counterexample: when [u] is already registered, [add_broker u] does
    nothing and [remove_broker u] then removes the existing record. *)
Lemma add_remove_registered_changes_registry :
  remove_broker (add_broker registry_with_u "tcp://u:1883" 1) "tcp://u:1883" <> registry_with_u.
Proof. vm_compute. discriminate. Qed.


(** ** The score model *)

Local Open Scope Q_scope.

Lemma div_nonneg (x d : Q) : 0 < d -> 0 < x -> 0 <= x / d.
Proof.
  intros Hd Hx. apply Qle_shift_div_l; [exact Hd|]. rewrite Qmult_0_l. apply Qlt_le_weak, Hx.
Qed.

Lemma latency_score_bounds (b : BrokerInfo) : 0 <= latency_score b <= 1.
Proof.
  unfold latency_score. destruct (Qltb 0 (latency b)) eqn:E; [|split; discriminate].
  apply Qltb_spec in E.
  assert (Hx : 0 <= latency b / LATENCY_BASELINE) by (apply div_nonneg; [reflexivity|exact E]).
  set (x := latency b / LATENCY_BASELINE) in *.
  split; [apply Q.le_max_l|]. apply Q.max_lub; lra.
Qed.

Lemma bandwidth_score_bounds (b : BrokerInfo) : 0 <= bandwidth_score b <= 1.
Proof.
  unfold bandwidth_score. destruct (Qltb 0 (bandwidth b)) eqn:E; [|split; discriminate].
  apply Qltb_spec in E.
  assert (Hx : 0 <= bandwidth b / BANDWIDTH_BASELINE) by (apply div_nonneg; [reflexivity|exact E]).
  set (x := bandwidth b / BANDWIDTH_BASELINE) in *.
  split; [apply Q.min_glb; lra|apply Q.le_min_l].
Qed.

Lemma connection_score_bounds (b : BrokerInfo) : 0 <= connection_score b <= 1.
Proof.
  unfold connection_score. destruct (Z.ltb 0 (connection_count b)) eqn:E; [|split; discriminate].
  apply Z.ltb_lt in E.
  assert (Hx : 0 <= inject_Z (connection_count b) / inject_Z CONNECTION_BASELINE).
  { apply div_nonneg; [reflexivity|]. change 0 with (inject_Z 0). rewrite <- Zlt_Qlt. exact E. }
  set (x := inject_Z (connection_count b) / inject_Z CONNECTION_BASELINE) in *.
  split; [apply Q.le_max_l|]. apply Q.max_lub; lra.
Qed.

Lemma weights_for_cases (c : string) :
  weights_for c = mkWeights (6#10) (2#10) (2#10) \/
  weights_for c = mkWeights (2#10) (6#10) (2#10) \/
  weights_for c = mkWeights (3#10) (4#10) (3#10) \/
  weights_for c = mkWeights (4#10) (2#10) (4#10) \/
  weights_for c = mkWeights (3#10) (5#10) (2#10) \/
  weights_for c = mkWeights (3#10) (2#10) (5#10).
Proof.
  unfold weights_for, CATEGORY_WEIGHTS. cbn [map_find].
  repeat (destruct (String.eqb c _)); auto 7.
Qed.

Lemma weights_for_in_table (c : string) :
  exists name, In (name, weights_for c) CATEGORY_WEIGHTS.
Proof.
  unfold weights_for, CATEGORY_WEIGHTS. cbn [map_find].
  repeat (destruct (String.eqb c _)); eexists; simpl; eauto 12.
Qed.

Lemma weighted_sum_bounds (c : string) (x y z : Q) :
  0 <= x <= 1 -> 0 <= y <= 1 -> 0 <= z <= 1 ->
  0 <= x * sw_latency (weights_for c) + y * sw_bandwidth (weights_for c)
       + z * sw_connection (weights_for c) <= 1.
Proof.
  intros Hx Hy Hz.
  destruct (weights_for_cases c) as [E|[E|[E|[E|[E|E]]]]]; rewrite E; simpl; lra.
Qed.

(** Every record built by [update_score] with the registry's weights has a
    score in [0, 1], and 0 when it is unavailable. *)
Definition score_ok (b : BrokerInfo) : Prop :=
  0 <= score b <= 1 /\ (is_available b = false -> score b = 0).

Lemma update_score_ok (c : string) (b : BrokerInfo) : score_ok (update_score (weights_for c) b).
Proof.
  unfold score_ok, update_score. simpl. destruct (is_available b); simpl.
  - split; [|discriminate].
    apply weighted_sum_bounds;
      [apply latency_score_bounds|apply bandwidth_score_bounds|apply connection_score_bounds].
  - split; [split; discriminate|reflexivity].
Qed.

Lemma update_first_forall (P : BrokerInfo -> Prop) (u : string) (f : BrokerInfo -> BrokerInfo)
    (bs : list BrokerInfo) :
  (forall b, P (f b)) -> Forall P bs -> Forall P (update_first u f bs).
Proof.
  intros Hf Hall. induction Hall as [|b bs Hb Hall IH]; simpl; [constructor|].
  destruct (has_uri u b); constructor; auto.
Qed.

Lemma erase_at_forall {A} (P : A -> Prop) (i : nat) (l : list A) :
  Forall P l -> Forall P (erase_at i l).
Proof.
  revert i. induction l as [|x l IH]; intros i H; [destruct i; constructor|].
  inversion H; subst. destruct i as [|i]; simpl; [assumption|]. constructor; auto.
Qed.

Lemma registry_step_scores (r r' : BrokerListManager) :
  registry_step r r' -> Forall score_ok (brokers r) -> Forall score_ok (brokers r').
Proof.
  intros Hs Hall. destruct Hs as [r u now|r u|r|r u|r u lat bw cc now|r u|r u].
  - unfold add_broker. destruct (existsb (has_uri u) (brokers r)); [exact Hall|]. simpl.
    apply Forall_app. split; [exact Hall|]. constructor; [|constructor].
    split; [split; discriminate|discriminate].
  - unfold remove_broker. destruct (find_index u (brokers r)); [|exact Hall].
    apply erase_at_forall, Hall.
  - constructor.
  - rewrite set_current_brokers. exact Hall.
  - apply update_first_forall; [|exact Hall]. intros b. apply update_score_ok.
  - apply update_first_forall; [|exact Hall]. intros b.
    split; [split; discriminate|reflexivity].
  - apply update_first_forall; [|exact Hall]. intros b. apply update_score_ok.
Qed.

Lemma registry_reachable_scores (r : BrokerListManager) :
  registry_reachable r -> Forall score_ok (brokers r).
Proof.
  induction 1 as [c|r r' _ IH Hs]; [constructor|].
  apply (registry_step_scores r r' Hs IH).
Qed.

(** C8. In every registry state reachable by the registry operations (add,
    remove, clear, set_current, update_metrics, mark_unavailable,
    mark_available), every broker record has a score in [0, 1], and a score
    of 0 when it is unavailable. *)
Theorem registry_score_invariant (r : BrokerListManager) :
  registry_reachable r ->
  forall b, In b (brokers r) -> 0 <= score b <= 1 /\ (is_available b = false -> score b = 0).
Proof.
  intros Hr b Hb. pose proof (registry_reachable_scores r Hr) as Hall.
  rewrite Forall_forall in Hall. apply (Hall b Hb).
Qed.

Definition measured_registry : BrokerListManager :=
  mark_broker_unavailable
    (update_broker_metrics registry_with_u "tcp://u:1883" 20 500000 30 1)
    "tcp://u:1883".

Lemma registry_score_invariant_witness :
  registry_reachable measured_registry /\
  In (mkBroker "tcp://u:1883" 20 500000 30 0 false 1) (brokers measured_registry) /\
  0 <= 0 <= 1 /\ (false = false -> (0 : Q) = 0).
Proof.
  assert (Hr : registry_reachable measured_registry).
  { apply (rr_step (update_broker_metrics registry_with_u "tcp://u:1883" 20 500000 30 1));
      [|constructor].
    apply (rr_step registry_with_u); [|constructor].
    apply (rr_step (new_registry "sensor")); constructor. }
  assert (Hin : In (mkBroker "tcp://u:1883" 20 500000 30 0 false 1) (brokers measured_registry)).
  { left. reflexivity. }
  split; [exact Hr|]. split; [exact Hin|].
  exact (registry_score_invariant measured_registry Hr _ Hin).
Defined.

(** ** C10: the best-broker search *)

Lemma find_best_loop_none (bs : list BrokerInfo) (best : option BrokerInfo) (s : Q) :
  find_best_loop bs best s = None ->
  best = None /\ Forall (fun b => is_available b = true -> score b <= s) bs.
Proof.
  revert best s. induction bs as [|b bs IH]; intros best s H; simpl in H.
  - split; [exact H|constructor].
  - destruct (is_available b && Qltb s (score b)) eqn:E.
    + destruct (IH _ _ H) as (Hd & _). discriminate.
    + destruct (IH _ _ H) as (Hbest & Hall). split; [exact Hbest|].
      constructor; [|exact Hall]. intros Ha. rewrite Ha in E. simpl in E.
      apply Qnot_lt_le. intros Hlt. apply Qltb_spec in Hlt. congruence.
Qed.

(** C10. In every reachable registry state, [find_best_broker] returns a
    record as soon as one registered broker is available, whatever the
    scores (the search starts from the sentinel -1 and scores are never
    negative); in particular a freshly added, never measured broker (score
    0, available) is returned as the best broker. *)
Theorem find_best_broker_some_if_available :
  (forall r, registry_reachable r ->
     (exists b, In b (brokers r) /\ is_available b = true) ->
     exists best, find_best_broker r = Some best) /\
  (forall c u now,
     find_best_broker (add_broker (new_registry c) u now) = Some (new_broker u now)).
Proof.
  split.
  - intros r Hr (b & Hb & Ha). pose proof (registry_reachable_scores r Hr) as Hs.
    unfold find_best_broker. destruct (brokers r) as [|b0 bs] eqn:Ebs; [contradiction|].
    destruct (find_best_loop (b0 :: bs) None (-1)) as [best|] eqn:E; [eauto|].
    exfalso. destruct (find_best_loop_none _ _ _ E) as (_ & Hall).
    rewrite Forall_forall in Hall, Hs. specialize (Hall b Hb Ha). destruct (Hs b Hb) as ((H0 & _) & _).
    lra.
  - intros c u now. reflexivity.
Qed.

(** The Score Model as the specification words it (section 4.1), next to
    [update_score] which is read from the source. *)
Definition spec_component_max (x : Q) (baseline : Q) : Q :=
  if Qlt_le_dec 0 x then Qmax 0 (1 - x / baseline) else 0.

Definition spec_component_min (x : Q) (baseline : Q) : Q :=
  if Qlt_le_dec 0 x then Qmin 1 (x / baseline) else 0.

Definition spec_score (w : ScoreWeights) (latency_ms bandwidth_bps : Q) (connections : Z) : Q :=
  sw_latency w * spec_component_max latency_ms 100
  + sw_bandwidth w * spec_component_min bandwidth_bps 1000000
  + sw_connection w * spec_component_max (inject_Z connections) 100.

Lemma Qltb_dec_agree (x : Q) (A : Type) (a1 a2 : A) :
  (if Qltb 0 x then a1 else a2) = (if Qlt_le_dec 0 x then a1 else a2).
Proof.
  destruct (Qltb 0 x) eqn:E; destruct (Qlt_le_dec 0 x) as [H|H]; try reflexivity.
  - apply Qltb_spec in E. exfalso. apply (Qlt_not_le 0 x E H).
  - exfalso. apply Qltb_spec in H. congruence.
Qed.

(** C2. For every category (unknown ones falling back to sensor), the
    weights used are a profile of the category table, and [update_score]
    sets the score to w_latency * latency_component + w_bandwidth *
    bandwidth_component + w_connection * connection_component with the
    components of section 4.1, or to 0 when the broker is unavailable; the
    result depends on the metrics and availability only. *)
Theorem update_score_formula (c : string) (b : BrokerInfo) :
  (exists name, In (name, weights_for c) CATEGORY_WEIGHTS) /\
  score (update_score (weights_for c) b)
    == (if is_available b
        then spec_score (weights_for c) (latency b) (bandwidth b) (connection_count b)
        else 0) /\
  (forall b', latency b' = latency b -> bandwidth b' = bandwidth b ->
     connection_count b' = connection_count b -> is_available b' = is_available b ->
     score (update_score (weights_for c) b') = score (update_score (weights_for c) b)).
Proof.
  split; [apply weights_for_in_table|split].
  - unfold update_score, spec_score. simpl. destruct (is_available b); simpl; [|reflexivity].
    unfold latency_score, bandwidth_score, connection_score, spec_component_max, spec_component_min.
    rewrite !Qltb_dec_agree.
    assert (Hz : (0 <? connection_count b)%Z = if Qlt_le_dec 0 (inject_Z (connection_count b)) then true else false).
    { destruct (Qlt_le_dec 0 (inject_Z (connection_count b))) as [H|H].
      - apply Z.ltb_lt. change 0 with (inject_Z 0) in H. rewrite <- Zlt_Qlt in H. exact H.
      - apply Z.ltb_ge. change 0 with (inject_Z 0) in H. rewrite <- Zle_Qle in H. exact H. }
    rewrite Hz. unfold LATENCY_BASELINE, BANDWIDTH_BASELINE, CONNECTION_BASELINE.
    destruct (Qlt_le_dec 0 (latency b)), (Qlt_le_dec 0 (bandwidth b)),
             (Qlt_le_dec 0 (inject_Z (connection_count b))); simpl;
      change (inject_Z 100) with 100; ring.
  - intros b' H1 H2 H3 H4. unfold update_score, latency_score, bandwidth_score, connection_score.
    simpl. rewrite H1, H2, H3, H4. reflexivity.
Qed.

(** The category-weight scenario of section 8. *)
Definition probe (lat bw : Q) (cc : Z) : BrokerInfo := mkBroker "tcp://x:1883" lat bw cc 0 true 0.

Example score_camera_half : score (update_score (weights_for "camera") (probe 50 500000 50)) == 1#2.
Proof. vm_compute. reflexivity. Qed.
Example score_sensor_half : score (update_score (weights_for "sensor") (probe 50 500000 50)) == 1#2.
Proof. vm_compute. reflexivity. Qed.
Example score_camera_fast :
  score (update_score (weights_for "camera") (probe 10 2000000 10)) == 96#100.
Proof. vm_compute. reflexivity. Qed.

Close Scope Q_scope.

(** * [src/topic.cpp]: topic splitting and topic filters

    Strings are lists of characters here: [std::string::find],
    [substr], [back] and [operator==] become list operations. *)
From Stdlib Require Import Ascii.

Module Topic.

Definition str := list ascii.

Definition delim : ascii := "/"%char.
Definition hash : ascii := "#"%char.
Definition plus : ascii := "+"%char.
Definition dollar : ascii := "$"%char.

Definition str_eqb (a b : str) : bool :=
  if list_eq_dec ascii_dec a b then true else false.

(** [s.find(c)] on the remaining suffix: the offset of the first [c]. *)
Fixpoint find_char (c : ascii) (s : str) : option nat :=
  match s with
  | [] => None
  | x :: s' => if ascii_dec x c then Some 0 else option_map S (find_char c s')
  end.

(** The [do ... while (pos != npos)] loop of [topic::split]; [rest] is
    [s.substr(startPos)], the part not consumed yet. *)
Fixpoint split_loop (fuel : nat) (rest : str) (v : list str) : list str :=
  match fuel with
  | 0 => v
  | S fuel' =>
      match find_char delim rest with
      | None => (v ++ [rest])%list
      | Some pos => split_loop fuel' (skipn (S pos) rest) (v ++ [firstn pos rest])%list
      end
  end.

(** [std::vector<string> topic::split(const string& s)]; each turn of the
    loop consumes at least one character, so [length s + 1] turns suffice. *)
Definition split (s : str) : list str :=
  match s with
  | [] => []
  | _ => split_loop (S (length s)) s []
  end.

(** [topic_filter::filter_] : [std::variant<string, std::vector<string>>] *)
Inductive topic_filter :=
| FilterString (f : str)
| FilterFields (fields : list str).

(** [static bool topic_filter::has_wildcards(const string& filter)] *)
Definition has_wildcards (filter : str) : bool :=
  match filter with
  | [] => false
  | _ => if ascii_dec (last filter "000"%char) hash then true
         else match find_char plus filter with Some _ => true | None => false end
  end.

(** [topic_filter::topic_filter(const string& filter)] *)
Definition make_filter (filter : str) : topic_filter :=
  if has_wildcards filter then FilterFields (split filter) else FilterString filter.

(** The body of [topic_filter::to_string] for the field vector: every field
    but the last followed by '/', then [fields.back()]. *)
Definition join_fields (fields : list str) : str :=
  match fields with
  | [] => []
  | _ => (concat (map (fun f => f ++ [delim]) (removelast fields)) ++ last fields [])%list
  end.

(** [string topic_filter::to_string() const] *)
Definition to_string (flt : topic_filter) : str :=
  match flt with
  | FilterString f => f
  | FilterFields fields => join_fields fields
  end.

Section Matching.

(** [topic_filter::is_wildcard], declared in [mqtt/topic.h], whose body is
    not part of the sources: a parameter here. *)
Variable is_wildcard : str -> bool.

(** The [for (size_t i = 0; i < n; ++i)] loop of [matches], from index [i]
    with [k] turns left. *)
Fixpoint match_loop (fields topic_fields : list str) (k i : nat) : bool :=
  let n := length fields in
  let nt := length topic_fields in
  match k with
  | 0 => true
  | S k' =>
      if str_eqb (nth i fields []) [hash] then true
      else if Nat.eqb i nt && Nat.ltb i (n - 1) then str_eqb (nth (S i) fields []) [hash]
      else if negb (str_eqb (nth i fields []) [plus])
              && negb (str_eqb (nth i fields []) (nth i topic_fields []))
      then false
      else match_loop fields topic_fields k' (S i)
  end.

Definition starts_with_dollar (s : str) : bool :=
  match s with
  | c :: _ => if ascii_dec c dollar then true else false
  | [] => false
  end.

(** [bool topic_filter::matches(const string& topic) const] *)
Definition matches (flt : topic_filter) (topic : str) : bool :=
  match flt with
  | FilterString s => str_eqb s topic
  | FilterFields fields =>
      let n := length fields in
      if Nat.eqb n 0 then false
      else
        let topic_fields := split topic in
        let nt := length topic_fields in
        if Nat.ltb nt n && negb (Nat.eqb n (S nt) && str_eqb (last fields []) [hash]) then false
        else if Nat.ltb n nt && negb (str_eqb (last fields []) [hash]) then false
        else if is_wildcard (nth 0 fields []) && Nat.ltb 0 nt
                && starts_with_dollar (nth 0 topic_fields []) then false
        else match_loop fields topic_fields n 0
  end.

End Matching.

End Topic.

Module TopicFacts.
Import Topic.

Lemma str_eqb_spec (a b : str) : str_eqb a b = true <-> a = b.
Proof. unfold str_eqb. destruct (list_eq_dec ascii_dec a b); split; congruence. Qed.

(** The fields of a string, cut at every '/', by structural recursion. *)
Fixpoint segments (s : str) : list str :=
  match s with
  | [] => [[]]
  | c :: s' =>
      if ascii_dec c delim then [] :: segments s'
      else match segments s' with
           | seg :: rest => (c :: seg) :: rest
           | [] => [[c]]
           end
  end.

Lemma segments_cons_nonempty (s : str) : exists seg rest, segments s = seg :: rest.
Proof.
  induction s as [|c s IH]; simpl; [eauto|].
  destruct (ascii_dec c delim); [eauto|]. destruct IH as (seg & rest & ->). eauto.
Qed.

Lemma segments_find_none (s : str) : find_char delim s = None -> segments s = [s].
Proof.
  induction s as [|c s IH]; simpl; [reflexivity|].
  destruct (ascii_dec c delim); [discriminate|].
  destruct (find_char delim s); [discriminate|]. intros _. rewrite IH by reflexivity. reflexivity.
Qed.

Lemma segments_find_some (s : str) (p : nat) :
  find_char delim s = Some p ->
  p < length s /\ segments s = firstn p s :: segments (skipn (S p) s).
Proof.
  revert p. induction s as [|c s IH]; intros p H; simpl in H; [discriminate|].
  destruct (ascii_dec c delim) as [Hc|Hc].
  - injection H as <-. simpl. split; [lia|]. destruct (ascii_dec c delim); [reflexivity|contradiction].
  - destruct (find_char delim s) as [q|] eqn:E; simpl in H; [|discriminate].
    injection H as <-. destruct (IH q eq_refl) as (Hlt & Hseg). simpl. split; [lia|].
    destruct (ascii_dec c delim); [contradiction|]. rewrite Hseg. reflexivity.
Qed.

Lemma split_loop_segments (fuel : nat) (rest : str) (v : list str) :
  length rest < fuel -> split_loop fuel rest v = (v ++ segments rest)%list.
Proof.
  revert rest v. induction fuel as [|fuel IH]; intros rest v H; [lia|]. simpl.
  destruct (find_char delim rest) as [p|] eqn:E.
  - destruct (segments_find_some rest p E) as (Hlt & Hseg). rewrite Hseg.
    rewrite IH; [rewrite <- app_assoc; reflexivity|].
    destruct rest as [|c r]; simpl in *; [lia|]. rewrite length_skipn. lia.
  - rewrite (segments_find_none rest E). reflexivity.
Qed.

Lemma split_segments (s : str) : s <> [] -> split s = segments s.
Proof.
  intros Hne. destruct s as [|c s']; [contradiction|]. unfold split.
  rewrite split_loop_segments by lia. reflexivity.
Qed.

Lemma join_fields_one (x : str) : join_fields [x] = x.
Proof. reflexivity. Qed.

Lemma join_fields_cons (x y : str) (l : list str) :
  join_fields (x :: y :: l) = (x ++ delim :: join_fields (y :: l))%list.
Proof.
  unfold join_fields. change (removelast (x :: y :: l)) with (x :: removelast (y :: l)).
  change (last (x :: y :: l) []) with (last (y :: l) []). simpl.
  rewrite <- !app_assoc. reflexivity.
Qed.

Lemma join_segments (s : str) : join_fields (segments s) = s.
Proof.
  induction s as [|c s IH]; [reflexivity|]. simpl.
  destruct (segments_cons_nonempty s) as (seg & rest & Hs).
  destruct (ascii_dec c delim) as [Hc|Hc].
  - rewrite Hs in *. rewrite join_fields_cons, IH, Hc. reflexivity.
  - rewrite Hs in *. destruct rest as [|y rest].
    + simpl in *. rewrite IH. reflexivity.
    + rewrite join_fields_cons in *. cbn [app]. rewrite IH. reflexivity.
Qed.

Lemma segments_no_delim (s : str) : Forall (fun f => ~ In delim f) (segments s).
Proof.
  induction s as [|c s IH]; simpl.
  - constructor; [intros []|constructor].
  - destruct (ascii_dec c delim) as [Hc|Hc].
    + constructor; [intros []|exact IH].
    + destruct (segments s) as [|seg rest]; [constructor; [intros [H|[]]; congruence|constructor]|].
      inversion IH; subst. constructor; [|assumption].
      intros [H|H]; [congruence|contradiction].
Qed.

(** [topic::split] cuts a string at every '/': the fields contain no '/',
    joining them back with '/' gives the string again, and only the empty
    string gives no field. *)
Theorem split_join_roundtrip (s : str) :
  join_fields (split s) = s /\
  Forall (fun f => ~ In delim f) (split s) /\
  (split s = [] <-> s = []).
Proof.
  destruct s as [|c s'].
  - split; [reflexivity|]. split; [constructor|]. split; reflexivity.
  - rewrite split_segments by discriminate. split; [apply join_segments|].
    split; [apply segments_no_delim|].
    destruct (segments_cons_nonempty (c :: s')) as (seg & rest & ->). split; discriminate.
Qed.

(** A [topic_filter] built from a string gives that string back through
    [to_string], whether or not it holds wildcards. *)
Theorem filter_to_string_roundtrip (f : str) : to_string (make_filter f) = f.
Proof.
  unfold make_filter. destruct (has_wildcards f) eqn:E; [|reflexivity].
  simpl. destruct f as [|c f']; [discriminate|].
  apply split_join_roundtrip.
Qed.

End TopicFacts.

Module TopicMatch.
Import Topic TopicFacts.

Section WithWildcard.
Variable is_wildcard : str -> bool.

Lemma last_in_list {A} (l : list A) (d : A) : l <> [] -> In (last l d) l.
Proof.
  induction l as [|x l IH]; intros H; [contradiction|].
  destruct l as [|y l]; [left; reflexivity|].
  right. apply IH. discriminate.
Qed.

Definition level_ok (F T : list str) (j : nat) : Prop :=
  nth j F [] = [plus] \/ nth j F [] = nth j T [].

Lemma match_loop_spec (F T : list str) (m : nat) :
  m <= length F -> m <= length T ->
  (forall j, j < m -> nth j F [] <> [hash]) ->
  (m = length F \/ nth m F [] = [hash]) ->
  forall k i, i + k = length F -> i <= m ->
  (match_loop F T k i = true <-> forall j, i <= j < m -> level_ok F T j).
Proof.
  intros HmF HmT Hno Hend k. induction k as [|k IH]; intros i Hik Him.
  - simpl. split; [intros _ j Hj; lia|reflexivity].
  - cbn [match_loop].
    destruct (Nat.eq_dec i m) as [->|Hne].
    + destruct Hend as [Hend|Hend]; [lia|].
      rewrite Hend. replace (str_eqb [hash] [hash]) with true by (symmetry; apply str_eqb_spec; reflexivity).
      split; [intros _ j Hj; lia|reflexivity].
    + assert (Hi : i < m) by lia.
      replace (str_eqb (nth i F []) [hash]) with false
        by (symmetry; destruct (str_eqb (nth i F []) [hash]) eqn:E; [|reflexivity];
            apply str_eqb_spec in E; exfalso; apply (Hno i Hi E)).
      replace (Nat.eqb i (length T)) with false by (symmetry; apply Nat.eqb_neq; lia).
      cbn [andb].
      destruct (str_eqb (nth i F []) [plus]) eqn:Ep;
        destruct (str_eqb (nth i F []) (nth i T [])) eqn:Eq; cbn [negb andb].
      * rewrite IH by lia. split.
        -- intros H j Hj. destruct (Nat.eq_dec j i) as [->|]; [left; apply str_eqb_spec, Ep|apply H; lia].
        -- intros H j Hj. apply H. lia.
      * rewrite IH by lia. split.
        -- intros H j Hj. destruct (Nat.eq_dec j i) as [->|]; [left; apply str_eqb_spec, Ep|apply H; lia].
        -- intros H j Hj. apply H. lia.
      * rewrite IH by lia. split.
        -- intros H j Hj. destruct (Nat.eq_dec j i) as [->|]; [right; apply str_eqb_spec, Eq|apply H; lia].
        -- intros H j Hj. apply H. lia.
      * split; [discriminate|]. intros H. exfalso.
        destruct (H i (conj (le_n i) Hi)) as [E|E].
        -- apply str_eqb_spec in E. congruence.
        -- apply str_eqb_spec in E. congruence.
Qed.

Definition dollar_blocked (F T : list str) : Prop :=
  is_wildcard (nth 0 F []) = true /\ starts_with_dollar (nth 0 T []) = true.

Lemma dollar_check (F T : list str) :
  0 < length T ->
  (is_wildcard (nth 0 F []) && Nat.ltb 0 (length T) && starts_with_dollar (nth 0 T [])) = true
  <-> dollar_blocked F T.
Proof.
  intros HT. unfold dollar_blocked.
  replace (Nat.ltb 0 (length T)) with true by (symmetry; apply Nat.ltb_lt; exact HT).
  rewrite andb_true_r, andb_true_iff. reflexivity.
Qed.

Lemma dollar_empty (F : list str) : ~ dollar_blocked F [].
Proof. intros (_ & H). discriminate. Qed.

(** [topic_filter::matches] on a filter with wildcards (the field vector).
    With no '#' field, a topic matches exactly when it has as many levels
    and every filter level is '+' or equal to the topic's level. With a
    final '#' after levels [G] free of '#', a topic matches exactly when it
    has at least [length G] levels and the first [length G] match [G] that
    way (so "a/#" matches "a" itself). In both cases a topic whose first
    level starts with '$' is refused when the first filter level is a
    wildcard. A filter without wildcards matches only the identical topic. *)
Theorem matches_spec :
  (forall (F : list str) (t : str),
     F <> [] -> ~ In [hash] F ->
     (matches is_wildcard (FilterFields F) t = true <->
      length F = length (split t) /\ ~ dollar_blocked F (split t) /\
      forall j, j < length F -> level_ok F (split t) j)) /\
  (forall (G : list str) (t : str),
     ~ In [hash] G ->
     (matches is_wildcard (FilterFields (G ++ [[hash]])) t = true <->
      length G <= length (split t) /\ ~ dollar_blocked (G ++ [[hash]]) (split t) /\
      forall j, j < length G -> level_ok G (split t) j)) /\
  (forall f t, has_wildcards f = false ->
     (matches is_wildcard (make_filter f) t = true <-> t = f)).
Proof.
  split; [|split].
  - intros F t HF Hno. unfold matches.
    set (T := split t).
    assert (Hn : Nat.eqb (length F) 0 = false).
    { apply Nat.eqb_neq. destruct F; [contradiction|discriminate]. }
    rewrite Hn.
    assert (Hlast : str_eqb (last F []) [hash] = false).
    { destruct (str_eqb (last F []) [hash]) eqn:E; [|reflexivity]. apply str_eqb_spec in E.
      exfalso. apply Hno. rewrite <- E. apply last_in_list, HF. }
    rewrite Hlast. rewrite andb_false_r. cbn [negb].
    destruct (Nat.ltb (length T) (length F)) eqn:E1.
    { apply Nat.ltb_lt in E1. cbn [andb]. split; [discriminate|]. intros (H & _). lia. }
    destruct (Nat.ltb (length F) (length T)) eqn:E2.
    { apply Nat.ltb_lt in E2. cbn [andb]. split; [discriminate|]. intros (H & _). lia. }
    apply Nat.ltb_ge in E1. apply Nat.ltb_ge in E2. cbn [andb].
    assert (Heq : length F = length T) by lia.
    assert (HT : 0 < length T) by (destruct F; [contradiction|simpl in Heq; lia]).
    destruct (is_wildcard (nth 0 F []) && Nat.ltb 0 (length T) && starts_with_dollar (nth 0 T [])) eqn:Ed.
    + apply (dollar_check F T HT) in Ed. split; [discriminate|]. intros (_ & Hd & _). contradiction.
    + assert (Hnd : ~ dollar_blocked F T).
      { intros Hd. apply (dollar_check F T HT) in Hd. congruence. }
      assert (Hloop : match_loop F T (length F) 0 = true <->
                      forall j, 0 <= j < length F -> level_ok F T j).
      { apply (match_loop_spec F T (length F)); try lia.
        intros j Hj E. apply Hno. rewrite <- E. apply nth_In. exact Hj. }
      rewrite Hloop. split.
      * intros H. split; [exact Heq|]. split; [exact Hnd|]. intros j Hj. apply H. lia.
      * intros (_ & _ & H) j Hj. apply H. lia.
  - intros G t Hno. unfold matches.
    set (F := (G ++ [[hash]])%list). set (T := split t).
    assert (HlenF : length F = S (length G)) by (unfold F; rewrite length_app; simpl; lia).
    rewrite HlenF. cbn [Nat.eqb].
    assert (Hlast : str_eqb (last F []) [hash] = true).
    { apply str_eqb_spec. unfold F. apply last_last. }
    rewrite Hlast, andb_true_r. cbn [negb]. rewrite andb_false_r.
    destruct (Nat.ltb (length T) (S (length G)) && negb (Nat.eqb (length G) (length T))) eqn:E1.
    { apply andb_true_iff in E1. destruct E1 as (E1 & E1'). apply Nat.ltb_lt in E1.
      apply negb_true_iff, Nat.eqb_neq in E1'.
      split; [discriminate|]. intros (H & _). lia. }
    assert (HGT : length G <= length T).
    { destruct (Nat.le_gt_cases (length G) (length T)) as [H|H]; [exact H|].
      exfalso. rewrite andb_false_iff in E1. destruct E1 as [E1|E1].
      - apply Nat.ltb_ge in E1. lia.
      - apply negb_false_iff, Nat.eqb_eq in E1. lia. }
    assert (Hnth : forall j, j < length G -> nth j F [] = nth j G []).
    { intros j Hj. unfold F. apply app_nth1. exact Hj. }
    assert (Hloop : match_loop F T (S (length G)) 0 = true <->
                    forall j, 0 <= j < length G -> level_ok F T j).
    { apply (match_loop_spec F T (length G)); try lia.
      - intros j Hj E. apply Hno. rewrite <- E, (Hnth j Hj). apply nth_In. exact Hj.
      - right. unfold F. rewrite <- (Nat.add_0_r (length G)), app_nth2_plus. reflexivity. }
    assert (Hlev : (forall j, 0 <= j < length G -> level_ok F T j) <->
                   (forall j, j < length G -> level_ok G T j)).
    { unfold level_ok. split; intros H j Hj.
      - rewrite <- (Hnth j Hj). apply H. lia.
      - rewrite (Hnth j (proj2 Hj)). apply H. lia. }
    destruct (Nat.eq_dec (length T) 0) as [HT0|HT0].
    + replace (Nat.ltb 0 (length T)) with false by (rewrite HT0; reflexivity).
      rewrite andb_false_r. cbn [andb]. rewrite Hloop, Hlev.
      assert (HTn : T = []) by (destruct T; [reflexivity|discriminate]).
      split.
      * intros H. split; [exact HGT|]. split; [rewrite HTn; apply dollar_empty|exact H].
      * intros (_ & _ & H). exact H.
    + assert (HT : 0 < length T) by lia.
      destruct (is_wildcard (nth 0 F []) && Nat.ltb 0 (length T) && starts_with_dollar (nth 0 T [])) eqn:Ed.
      * apply (dollar_check F T HT) in Ed. split; [discriminate|]. intros (_ & Hd & _). contradiction.
      * assert (Hnd : ~ dollar_blocked F T).
        { intros Hd. apply (dollar_check F T HT) in Hd. congruence. }
        rewrite Hloop, Hlev. split.
        -- intros H. auto.
        -- intros (_ & _ & H). exact H.
  - intros f t Hw. unfold make_filter. rewrite Hw. simpl. rewrite str_eqb_spec. split; auto.
Qed.

End WithWildcard.

(** [is_wildcard] as the MQTT filter levels make it: "+" or "#". *)
Definition mqtt_is_wildcard (s : str) : bool := str_eqb s [plus] || str_eqb s [hash].

Lemma matches_spec_witness :
  matches mqtt_is_wildcard (FilterFields ([list_ascii_of_string "a"] ++ [[hash]]))
          (list_ascii_of_string "a") = true.
Proof.
  destruct (matches_spec mqtt_is_wildcard) as (_ & HB & _).
  apply HB.
  - intros [H|[]]. discriminate.
  - split; [simpl; lia|]. split.
    + intros (_ & H). discriminate.
    + intros j Hj. simpl in Hj. assert (j = 0) by lia. subst. right. reflexivity.
Defined.

End TopicMatch.

(** * Registry accessors, [set_brokers] and the Monitor's measurements *)

(** [std::vector<std::string> get_broker_uris() const] *)
Definition get_broker_uris (r : BrokerListManager) : list string := map uri (brokers r).

(** [size_t get_broker_count() const] *)
Definition get_broker_count (r : BrokerListManager) : nat := length (brokers r).

(** [std::string get_current_broker_uri() const] *)
Definition get_current_broker_uri (r : BrokerListManager) : string :=
  match get_current_broker r with
  | Some b => uri b
  | None => ""
  end.

(** [void SelfAdaptiveMqttManager::set_brokers(const std::vector<std::string>&)]
    on [broker_manager_]: [clear_brokers()], then [add_broker(uri)] for each
    URI in order; [now] is the clock reading of the records' construction. *)
Definition set_brokers (r : BrokerListManager) (broker_uris : list string) (now : nat)
  : BrokerListManager :=
  fold_left (fun r u => add_broker r u now) broker_uris (clear_brokers r).

(** A list without its repetitions, each element kept at its first
    occurrence; [seen] holds the elements already kept. *)
Fixpoint dedup_from (seen : list string) (l : list string) : list string :=
  match l with
  | [] => []
  | x :: l' =>
      if in_dec string_dec x seen then dedup_from seen l'
      else x :: dedup_from (x :: seen) l'
  end.

Definition dedup (l : list string) : list string := dedup_from [] l.

(** The first record with a given URI, as the [for (const auto& broker :
    brokers) if (broker->uri == broker_uri) { ...; break; }] loops of the
    Monitor find it in [get_all_brokers()]. *)
Fixpoint find_broker (u : string) (bs : list BrokerInfo) : option BrokerInfo :=
  match bs with
  | [] => None
  | b :: bs' => if has_uri u b then Some b else find_broker u bs'
  end.

(** [void BrokerMonitorThread::measure_latency(const std::string&)], its
    effect on the shared registry. [measured] is what [calculate_latency]
    returned, [None] when it threw. The [on_metrics_updated_] callback goes
    to the manager. *)
Definition measure_latency (measured : option Q) (r : BrokerListManager) (u : string) (now : nat)
  : BrokerListManager :=
  match measured with
  | None => mark_broker_unavailable r u
  | Some lat =>
      match find_broker u (brokers r) with
      | Some b => update_broker_metrics r u lat (bandwidth b) (connection_count b) now
      | None => r
      end
  end.

(** [void BrokerMonitorThread::measure_bandwidth(const std::string&)] *)
Definition measure_bandwidth (measured : option Q) (r : BrokerListManager) (u : string) (now : nat)
  : BrokerListManager :=
  match measured with
  | None => mark_broker_unavailable r u
  | Some bw =>
      match find_broker u (brokers r) with
      | Some b => update_broker_metrics r u (latency b) bw (connection_count b) now
      | None => r
      end
  end.

(** [void BrokerMonitorThread::check_connection_count(const std::string&)]:
    a failed query leaves the broker as it is. *)
Definition check_connection_count (measured : option Z) (r : BrokerListManager) (u : string)
    (now : nat) : BrokerListManager :=
  match measured with
  | None => r
  | Some cc =>
      match find_broker u (brokers r) with
      | Some b => update_broker_metrics r u (latency b) (bandwidth b) cc now
      | None => r
      end
  end.

(** The registry calls made at run time: by the manager ([add_broker],
    [remove_broker], [set_brokers], [set_current_broker] on a connection,
    [mark_broker_unavailable] on a failed connection) and by the Monitor
    (the three measurements). [mark_broker_available] has no caller. *)
Inductive runtime_step : BrokerListManager -> BrokerListManager -> Prop :=
| ru_add r u now : runtime_step r (add_broker r u now)
| ru_remove r u : runtime_step r (remove_broker r u)
| ru_clear r : runtime_step r (clear_brokers r)
| ru_set_current r u : runtime_step r (snd (set_current_broker r u))
| ru_mark_unavailable r u : runtime_step r (mark_broker_unavailable r u)
| ru_latency meas r u now : runtime_step r (measure_latency meas r u now)
| ru_bandwidth meas r u now : runtime_step r (measure_bandwidth meas r u now)
| ru_connections meas r u now : runtime_step r (check_connection_count meas r u now).

(** Two records that agree on every field, the score as a number. *)
Definition same_broker (b b' : BrokerInfo) : Prop :=
  uri b = uri b' /\ latency b = latency b' /\ bandwidth b = bandwidth b' /\
  connection_count b = connection_count b' /\ (score b == score b')%Q /\
  is_available b = is_available b' /\ last_check b = last_check b'.

(** The score a record holds is the one [update_score] gives for its
    metrics and availability under the weights of category [c]. *)
Definition score_consistent (c : string) (b : BrokerInfo) : Prop :=
  (score b == score (update_score (weights_for c) b))%Q.

Module RegistryFacts.

Lemma existsb_has_uri (u : string) (bs : list BrokerInfo) :
  existsb (has_uri u) bs = true <-> In u (map uri bs).
Proof.
  rewrite existsb_exists. split.
  - intros (b & Hb & Hu). apply has_uri_true in Hu. subst. apply in_map, Hb.
  - intros H. apply in_map_iff in H. destruct H as (b & <- & Hb).
    exists b. split; [exact Hb|]. apply has_uri_true. reflexivity.
Qed.

Lemma dedup_from_ext (s1 s2 l : list string) :
  (forall y, In y s1 <-> In y s2) -> dedup_from s1 l = dedup_from s2 l.
Proof.
  revert s1 s2. induction l as [|x l IH]; intros s1 s2 H; simpl; [reflexivity|].
  destruct (in_dec string_dec x s1) as [H1|H1], (in_dec string_dec x s2) as [H2|H2].
  - apply IH, H.
  - exfalso. apply H2, H, H1.
  - exfalso. apply H1, H, H2.
  - f_equal. apply IH. intros y. simpl. rewrite H. reflexivity.
Qed.

Lemma dedup_from_spec (seen l : list string) :
  NoDup (dedup_from seen l) /\
  (forall y, In y (dedup_from seen l) <-> In y l /\ ~ In y seen).
Proof.
  revert seen. induction l as [|x l IH]; intros seen; simpl.
  - split; [constructor|]. intros y. tauto.
  - destruct (in_dec string_dec x seen) as [Hx|Hx].
    + destruct (IH seen) as (Hnd & Hin). split; [exact Hnd|]. intros y. rewrite Hin.
      destruct (string_dec x y) as [<-|Hne]; tauto.
    + destruct (IH (x :: seen)) as (Hnd & Hin). split.
      * constructor; [|exact Hnd]. rewrite Hin. simpl. tauto.
      * intros y. simpl. rewrite Hin. simpl. destruct (string_dec x y) as [<-|Hne]; tauto.
Qed.

Definition fresh (now : nat) (b : BrokerInfo) : Prop := b = new_broker (uri b) now.

Lemma add_brokers_fold (L : list string) (r : BrokerListManager) (now : nat) :
  current_broker_index r = 0 -> Forall (fresh now) (brokers r) ->
  map uri (brokers (fold_left (fun r u => add_broker r u now) L r))
    = (map uri (brokers r) ++ dedup_from (map uri (brokers r)) L)%list /\
  current_broker_index (fold_left (fun r u => add_broker r u now) L r) = 0 /\
  category (fold_left (fun r u => add_broker r u now) L r) = category r /\
  Forall (fresh now) (brokers (fold_left (fun r u => add_broker r u now) L r)).
Proof.
  revert r. induction L as [|u L IH]; intros r H0 Hf; cbn [fold_left dedup_from].
  - rewrite app_nil_r. auto.
  - destruct (existsb (has_uri u) (brokers r)) eqn:E.
    + replace (add_broker r u now) with r by (unfold add_broker; rewrite E; reflexivity).
      apply existsb_has_uri in E.
      destruct (in_dec string_dec u (map uri (brokers r))) as [_|Hn]; [|contradiction].
      apply IH; assumption.
    + assert (Hb : brokers (add_broker r u now) = (brokers r ++ [new_broker u now])%list)
        by (unfold add_broker; rewrite E; reflexivity).
      assert (Hi : current_broker_index (add_broker r u now) = 0)
        by (unfold add_broker; rewrite E; simpl; rewrite H0;
            destruct (Nat.eqb _ 1); reflexivity).
      assert (Hc : category (add_broker r u now) = category r)
        by (unfold add_broker; rewrite E; reflexivity).
      assert (Hf' : Forall (fresh now) (brokers (add_broker r u now))).
      { rewrite Hb. apply Forall_app. split; [exact Hf|]. constructor; [reflexivity|constructor]. }
      destruct (IH (add_broker r u now) Hi Hf') as (H1 & H2 & H3 & H4).
      assert (Hnot : ~ In u (map uri (brokers r))).
      { intros H. apply existsb_has_uri in H. congruence. }
      destruct (in_dec string_dec u (map uri (brokers r))) as [Hin|_]; [contradiction|].
      split; [|split; [exact H2|split; [rewrite H3; exact Hc|exact H4]]].
      rewrite H1, Hb, map_app. cbn [map uri new_broker]. rewrite <- app_assoc. cbn [app].
      f_equal. f_equal. apply dedup_from_ext. intros y. rewrite in_app_iff. simpl. tauto.
Qed.

Lemma NoDup_app_last {A} (l : list A) (x : A) : NoDup l -> ~ In x l -> NoDup (l ++ [x])%list.
Proof.
  induction l as [|y l IH]; simpl; intros Hnd Hx.
  - constructor; [intros []|constructor].
  - inversion Hnd; subst. constructor.
    + rewrite in_app_iff. intros [H|[H|[]]]; [contradiction|]. apply Hx. left. symmetry. exact H.
    + apply IH; [assumption|]. intros H. apply Hx. right. exact H.
Qed.

Lemma map_erase_at {A B} (f : A -> B) (i : nat) (l : list A) :
  map f (erase_at i l) = erase_at i (map f l).
Proof.
  revert i. induction l as [|x l IH]; intros [|i]; simpl; try reflexivity. f_equal. apply IH.
Qed.

Lemma erase_at_incl {A} (i : nat) (l : list A) (y : A) : In y (erase_at i l) -> In y l.
Proof.
  revert i. induction l as [|x l IH]; intros [|i]; simpl; try tauto.
  intros [H|H]; [left; exact H|right; apply (IH i H)].
Qed.

Lemma NoDup_erase_at {A} (i : nat) (l : list A) : NoDup l -> NoDup (erase_at i l).
Proof.
  revert i. induction l as [|x l IH]; intros [|i] H; simpl; try constructor;
    inversion H; subst; try assumption.
  - intros Hin. apply H2. apply (erase_at_incl i l x Hin).
  - apply IH. assumption.
Qed.

Lemma registry_step_nodup (r r' : BrokerListManager) :
  registry_step r r' -> NoDup (map uri (brokers r)) -> NoDup (map uri (brokers r')).
Proof.
  intros Hs Hnd. destruct Hs as [r u now|r u|r|r u|r u lat bw cc now|r u|r u].
  - unfold add_broker. destruct (existsb (has_uri u) (brokers r)) eqn:E; [exact Hnd|].
    cbn [brokers]. rewrite map_app. cbn [map uri new_broker].
    apply NoDup_app_last; [exact Hnd|].
    intros H. apply existsb_has_uri in H. congruence.
  - unfold remove_broker. destruct (find_index u (brokers r)); [|exact Hnd].
    cbn [brokers]. rewrite map_erase_at. apply NoDup_erase_at, Hnd.
  - constructor.
  - rewrite set_current_brokers. exact Hnd.
  - unfold update_broker_metrics. cbn [brokers]. rewrite update_first_uris; [exact Hnd|].
    reflexivity.
  - rewrite mark_unavailable_uris. exact Hnd.
  - unfold mark_broker_available. cbn [brokers]. rewrite update_first_uris; [exact Hnd|].
    reflexivity.
Qed.

Lemma registry_reachable_nodup (r : BrokerListManager) :
  registry_reachable r -> NoDup (map uri (brokers r)).
Proof.
  induction 1 as [c|r r' _ IH Hs]; [constructor|]. apply (registry_step_nodup r r' Hs IH).
Qed.

End RegistryFacts.

Module RegistryFacts2.
Import RegistryFacts.

Lemma update_score_idem (w : ScoreWeights) (b : BrokerInfo) :
  score (update_score w (update_score w b)) = score (update_score w b).
Proof. reflexivity. Qed.

Lemma registry_step_category (r r' : BrokerListManager) :
  registry_step r r' -> category r' = category r.
Proof.
  intros Hs. destruct Hs as [r u now|r u|r|r u|r u lat bw cc now|r u|r u]; try reflexivity.
  - unfold add_broker. destruct (existsb (has_uri u) (brokers r)); reflexivity.
  - unfold remove_broker. destruct (find_index u (brokers r)); reflexivity.
  - unfold set_current_broker. destruct (find_index u (brokers r)); reflexivity.
Qed.

Lemma registry_step_consistent (r r' : BrokerListManager) :
  registry_step r r' ->
  Forall (score_consistent (category r)) (brokers r) ->
  Forall (score_consistent (category r')) (brokers r').
Proof.
  intros Hs. rewrite (registry_step_category r r' Hs). intros Hall.
  destruct Hs as [r u now|r u|r|r u|r u lat bw cc now|r u|r u].
  - unfold add_broker. destruct (existsb (has_uri u) (brokers r)); [exact Hall|]. cbn [brokers].
    apply Forall_app. split; [exact Hall|]. constructor; [|constructor].
    unfold score_consistent, update_score, latency_score, bandwidth_score, connection_score.
    cbn. ring.
  - unfold remove_broker. destruct (find_index u (brokers r)); [|exact Hall].
    apply erase_at_forall, Hall.
  - constructor.
  - rewrite set_current_brokers. exact Hall.
  - apply update_first_forall; [|exact Hall]. intros b.
    unfold score_consistent. rewrite update_score_idem. reflexivity.
  - apply update_first_forall; [|exact Hall]. intros b.
    unfold score_consistent, update_score. cbn. reflexivity.
  - apply update_first_forall; [|exact Hall]. intros b.
    unfold score_consistent. rewrite update_score_idem. reflexivity.
Qed.

Lemma registry_reachable_consistent (r : BrokerListManager) :
  registry_reachable r -> Forall (score_consistent (category r)) (brokers r).
Proof.
  induction 1 as [c|r r' _ IH Hs]; [constructor|].
  apply (registry_step_consistent r r' Hs IH).
Qed.

Lemma update_first_compose (u : string) (f g : BrokerInfo -> BrokerInfo) (bs : list BrokerInfo) :
  (forall b, uri (g b) = uri b) ->
  update_first u f (update_first u g bs) = update_first u (fun b => f (g b)) bs.
Proof.
  intros Hg. induction bs as [|b bs IH]; simpl; [reflexivity|].
  destruct (has_uri u b) eqn:E; simpl.
  - unfold has_uri in *. rewrite Hg, E. reflexivity.
  - rewrite E, IH. reflexivity.
Qed.

Lemma same_broker_refl (b : BrokerInfo) : same_broker b b.
Proof. unfold same_broker. repeat split; reflexivity. Qed.

Lemma Forall2_same_refl (bs : list BrokerInfo) : Forall2 same_broker bs bs.
Proof. induction bs; constructor; [apply same_broker_refl|assumption]. Qed.

Lemma mark_available_restores (c u : string) (bs : list BrokerInfo) :
  Forall (score_consistent c) bs -> is_broker_available_in u bs = true ->
  Forall2 same_broker
    (update_first u (fun b => update_score (weights_for c)
       (mkBroker (uri b) (latency b) (bandwidth b) (connection_count b) (score b) true
                 (last_check b))) bs) bs.
Proof.
  intros Hall. induction Hall as [|b bs Hb Hall IH]; simpl; [discriminate|].
  destruct (has_uri u b) eqn:E; intros Ha.
  - constructor; [|apply Forall2_same_refl].
    destruct b as [bu bl bb bc bsc ba blc]; cbn in Ha |- *. subst ba.
    unfold score_consistent in Hb. cbn in Hb.
    unfold same_broker. cbn. repeat split; try reflexivity. symmetry. exact Hb.
  - constructor; [apply same_broker_refl|]. apply IH, Ha.
Qed.

Lemma get_current_broker_eq (r : BrokerListManager) :
  get_current_broker r =
  if Nat.ltb (current_broker_index r) (length (brokers r))
  then nth_error (brokers r) (current_broker_index r) else None.
Proof.
  unfold get_current_broker. destruct (brokers r) as [|b bs]; [destruct (current_broker_index r); reflexivity|].
  rewrite Nat.ltb_antisym. destruct (Nat.leb _ _); reflexivity.
Qed.

Lemma get_current_some (r : BrokerListManager) (c : BrokerInfo) :
  get_current_broker r = Some c ->
  current_broker_index r < length (brokers r) /\ nth_error (brokers r) (current_broker_index r) = Some c.
Proof.
  rewrite get_current_broker_eq. destruct (Nat.ltb _ _) eqn:E; [|discriminate].
  apply Nat.ltb_lt in E. auto.
Qed.

Lemma nth_error_erase_at_lt {A} (i j : nat) (l : list A) :
  j < i -> nth_error (erase_at i l) j = nth_error l j.
Proof.
  revert i j. induction l as [|x l IH]; intros i j H; [destruct i; reflexivity|].
  destruct i as [|i]; [lia|]. destruct j as [|j]; [reflexivity|]. simpl. apply IH. lia.
Qed.

Lemma nth_error_erase_at_ge {A} (i j : nat) (l : list A) :
  i <= j -> nth_error (erase_at i l) j = nth_error l (S j).
Proof.
  revert i j. induction l as [|x l IH]; intros i j H.
  - destruct i; destruct j; reflexivity.
  - destruct i as [|i]; [reflexivity|]. destruct j as [|j]; [lia|]. simpl. apply IH. lia.
Qed.

Lemma find_index_some (u : string) (bs : list BrokerInfo) (i : nat) :
  find_index u bs = Some i -> exists b, nth_error bs i = Some b /\ uri b = u.
Proof.
  revert i. induction bs as [|b bs IH]; intros i H; simpl in H; [discriminate|].
  destruct (has_uri u b) eqn:E.
  - injection H as <-. exists b. split; [reflexivity|]. apply has_uri_true, E.
  - destruct (find_index u bs) as [j|]; simpl in H; [|discriminate].
    injection H as <-. apply (IH j eq_refl).
Qed.

Lemma find_index_app (u : string) (pre l : list BrokerInfo) :
  ~ In u (map uri pre) -> find_index u (pre ++ l)%list = option_map (Nat.add (length pre)) (find_index u l).
Proof.
  induction pre as [|b pre IH]; intros Hn; simpl.
  - destruct (find_index u l); reflexivity.
  - destruct (has_uri u b) eqn:E.
    + exfalso. apply Hn. left. apply has_uri_true, E.
    + rewrite IH by (intros H; apply Hn; right; exact H).
      destruct (find_index u l); reflexivity.
Qed.

Lemma erase_at_app_len {A} (pre post : list A) (x : A) :
  erase_at (length pre) (pre ++ x :: post)%list = (pre ++ post)%list.
Proof. induction pre as [|y pre IH]; simpl; [reflexivity|]. rewrite IH. reflexivity. Qed.

(** The loop of [find_best_broker_internal]: the record it returns is the
    [best] it started from, or the first available record above the
    running score with no available record before it at or above its
    score and none after it above. *)
Lemma find_best_loop_some (bs : list BrokerInfo) (best : option BrokerInfo) (s : Q) (b : BrokerInfo) :
  find_best_loop bs best s = Some b ->
  (best = Some b /\ Forall (fun b' => is_available b' = true -> (score b' <= s)%Q) bs) \/
  (exists pre post, bs = (pre ++ b :: post)%list /\ is_available b = true /\ (s < score b)%Q /\
     Forall (fun b' => is_available b' = true -> (score b' < score b)%Q) pre /\
     Forall (fun b' => is_available b' = true -> (score b' <= score b)%Q) post).
Proof.
  revert best s. induction bs as [|b0 bs IH]; intros best s H; simpl in H.
  - left. split; [exact H|constructor].
  - destruct (is_available b0 && Qltb s (score b0)) eqn:E.
    + apply andb_true_iff in E. destruct E as (Ha0 & Hlt0). apply Qltb_spec in Hlt0.
      destruct (IH _ _ H) as [(Hb & Hall)|(pre & post & Hbs & Ha & Hlt & Hpre & Hpost)].
      * injection Hb as <-. right. exists [], bs.
        split; [reflexivity|]. split; [exact Ha0|]. split; [exact Hlt0|]. split; [constructor|exact Hall].
      * right. exists (b0 :: pre), post. rewrite Hbs.
        split; [reflexivity|]. split; [exact Ha|]. split; [apply (Qlt_trans _ (score b0)); assumption|].
        split; [|exact Hpost]. constructor; [|exact Hpre]. intros _. exact Hlt.
    + assert (Hle0 : is_available b0 = true -> (score b0 <= s)%Q).
      { intros Ha0. rewrite Ha0 in E. simpl in E. apply Qnot_lt_le. intros Hlt.
        apply Qltb_spec in Hlt. congruence. }
      destruct (IH _ _ H) as [(Hb & Hall)|(pre & post & Hbs & Ha & Hlt & Hpre & Hpost)].
      * left. split; [exact Hb|]. constructor; assumption.
      * right. exists (b0 :: pre), post. rewrite Hbs.
        split; [reflexivity|]. split; [exact Ha|]. split; [exact Hlt|].
        split; [|exact Hpost]. constructor; [|exact Hpre]. intros Ha0. apply (Qle_lt_trans _ s); auto.
Qed.

Lemma is_available_update_first (x v : string) (f : BrokerInfo -> BrokerInfo) (bs : list BrokerInfo) :
  (forall b, uri (f b) = uri b /\ is_available (f b) = is_available b) ->
  is_broker_available_in x (update_first v f bs) = is_broker_available_in x bs.
Proof.
  intros Hf. induction bs as [|b bs IH]; simpl; [reflexivity|].
  destruct (has_uri v b); simpl.
  - unfold has_uri. destruct (Hf b) as (-> & ->). reflexivity.
  - rewrite IH. reflexivity.
Qed.

Lemma update_metrics_availability (r : BrokerListManager) (v x : string) lat bw cc now :
  is_broker_available (update_broker_metrics r v lat bw cc now) x = is_broker_available r x /\
  map uri (brokers (update_broker_metrics r v lat bw cc now)) = map uri (brokers r).
Proof.
  split.
  - apply is_available_update_first. intros b. split; reflexivity.
  - apply update_first_uris. reflexivity.
Qed.

Lemma measure_availability (r r' : BrokerListManager) (v x : string) :
  (r' = r \/ exists lat bw cc now, r' = update_broker_metrics r v lat bw cc now) ->
  is_broker_available r' x = is_broker_available r x /\ map uri (brokers r') = map uri (brokers r).
Proof.
  intros [->|(lat & bw & cc & now & ->)]; [auto|apply update_metrics_availability].
Qed.

Lemma is_available_app (u : string) (bs l : list BrokerInfo) :
  In u (map uri bs) -> is_broker_available_in u (bs ++ l)%list = is_broker_available_in u bs.
Proof.
  induction bs as [|b bs IH]; simpl; [contradiction|]. intros Hin.
  destruct (has_uri u b) eqn:E; [reflexivity|]. apply IH.
  destruct Hin as [H|H]; [|exact H]. apply has_uri_true in H. congruence.
Qed.

Lemma erase_other (u : string) (i : nat) (bs : list BrokerInfo) (b : BrokerInfo) :
  nth_error bs i = Some b -> uri b <> u ->
  is_broker_available_in u (erase_at i bs) = is_broker_available_in u bs /\
  (In u (map uri (erase_at i bs)) <-> In u (map uri bs)).
Proof.
  revert i. induction bs as [|b0 bs IH]; intros i Hi Hne; [destruct i; discriminate|].
  destruct i as [|i]; simpl in Hi |- *.
  - injection Hi as ->. destruct (has_uri u b) eqn:E; [apply has_uri_true in E; contradiction|].
    split; [reflexivity|]. split; [auto|]. intros [H|H]; [contradiction|exact H].
  - destruct (IH i Hi Hne) as (H1 & H2). destruct (has_uri u b0); [split; [reflexivity|]|split; [exact H1|]];
      simpl; rewrite H2; reflexivity.
Qed.

End RegistryFacts2.

(** [std::find_if] finds the first record of [u] when there is one. *)
Lemma find_index_split (u : string) (bs : list BrokerInfo) :
  existsb (has_uri u) bs = true ->
  exists pre b post, bs = (pre ++ b :: post)%list /\ uri b = u /\ ~ In u (map uri pre) /\
    find_index u bs = Some (length pre).
Proof.
  induction bs as [|b bs IH]; intros H; [discriminate|]. simpl in H |- *.
  destruct (has_uri u b) eqn:E.
  - exists [], b, bs. split; [reflexivity|]. split; [apply has_uri_true, E|].
    split; [intros []|reflexivity].
  - destruct (IH H) as (pre & b' & post & Hbs & Hu & Hn & Hf).
    exists (b :: pre), b', post. split; [rewrite Hbs; reflexivity|]. split; [exact Hu|].
    split; [|rewrite Hf; reflexivity].
    intros [Hb|Hin]; [|exact (Hn Hin)].
    unfold has_uri in E. apply String.eqb_neq in E. congruence.
Qed.

Lemma find_index_none (u : string) (bs : list BrokerInfo) :
  existsb (has_uri u) bs = false -> find_index u bs = None.
Proof.
  induction bs as [|b bs IH]; intros H; simpl in H |- *; [reflexivity|].
  destruct (has_uri u b); [discriminate|]. rewrite (IH H). reflexivity.
Qed.

(** C9, as the code does it: from every reachable registry state, for a
    URI not yet registered, [add_broker u] followed by [remove_broker u]
    gives back the same records, in the same order, and the same current
    index; for a URI already registered, [add_broker u] changes nothing
    and the pair removes the existing record of [u], after which [u] is
    no longer registered. *)
Theorem add_remove_broker_roundtrip (r : BrokerListManager) (u : string) (now : nat) :
  registry_reachable r ->
  (existsb (has_uri u) (brokers r) = false -> remove_broker (add_broker r u now) u = r) /\
  (existsb (has_uri u) (brokers r) = true ->
     add_broker r u now = r /\
     exists pre b post, brokers r = (pre ++ b :: post)%list /\ uri b = u /\
       brokers (remove_broker (add_broker r u now) u) = (pre ++ post)%list /\
       ~ In u (map uri (brokers (remove_broker (add_broker r u now) u)))).
Proof.
  intros Hr. split.
  - intros Hn. apply add_remove_fresh; [apply registry_reachable_index_ok, Hr | exact Hn].
  - intros Hin.
    assert (Ha : add_broker r u now = r) by (unfold add_broker; rewrite Hin; reflexivity).
    split; [exact Ha|]. rewrite Ha.
    destruct (find_index_split u _ Hin) as (pre & b & post & Hbs & Hu & _ & Hf).
    exists pre, b, post.
    assert (Hb : brokers (remove_broker r u) = (pre ++ post)%list).
    { unfold remove_broker. rewrite Hf. cbn [brokers]. rewrite Hbs. apply RegistryFacts2.erase_at_app_len. }
    split; [exact Hbs|]. split; [exact Hu|]. split; [exact Hb|].
    rewrite Hb. pose proof (RegistryFacts.registry_reachable_nodup r Hr) as Hnd.
    rewrite Hbs, map_app in Hnd. cbn [map] in Hnd. apply NoDup_remove_2 in Hnd.
    rewrite map_app. rewrite Hu in Hnd. exact Hnd.
Qed.

Lemma add_remove_broker_roundtrip_witness :
  registry_reachable registry_with_u /\
  remove_broker (add_broker registry_with_u "tcp://v:1883" 5) "tcp://v:1883" = registry_with_u /\
  add_broker registry_with_u "tcp://u:1883" 5 = registry_with_u.
Proof.
  assert (Hr : registry_reachable registry_with_u).
  { apply (rr_step (new_registry "sensor")); [constructor | constructor]. }
  assert (Hn : existsb (has_uri "tcp://v:1883") (brokers registry_with_u) = false)
    by reflexivity.
  assert (Hy : existsb (has_uri "tcp://u:1883") (brokers registry_with_u) = true)
    by reflexivity.
  split; [exact Hr|]. split.
  - exact (proj1 (add_remove_broker_roundtrip registry_with_u "tcp://v:1883" 5 Hr) Hn).
  - exact (proj1 (proj2 (add_remove_broker_roundtrip registry_with_u "tcp://u:1883" 5 Hr) Hy)).
Defined.

Module RegistryExtra.
Import RegistryFacts RegistryFacts2.

(** [set_brokers(L)] leaves exactly the URIs of [L], each once, in the
    order of their first occurrence in [L], every record freshly
    constructed, with the current index back at 0 and the category kept. *)
Theorem set_brokers_spec (r : BrokerListManager) (L : list string) (now : nat) :
  get_broker_uris (set_brokers r L now) = dedup L /\
  NoDup (get_broker_uris (set_brokers r L now)) /\
  (forall u, In u (get_broker_uris (set_brokers r L now)) <-> In u L) /\
  current_broker_index (set_brokers r L now) = 0 /\
  category (set_brokers r L now) = category r /\
  Forall (fun b => b = new_broker (uri b) now) (brokers (set_brokers r L now)).
Proof.
  unfold set_brokers, get_broker_uris.
  destruct (add_brokers_fold L (clear_brokers r) now eq_refl (Forall_nil _)) as (H1 & H2 & H3 & H4).
  rewrite H1. cbn [clear_brokers brokers map app category] in *. fold (dedup L).
  destruct (dedup_from_spec [] L) as (Hnd & Hin).
  split; [reflexivity|]. split; [exact Hnd|]. split.
  - intros u. rewrite Hin. simpl. tauto.
  - split; [exact H2|]. split; [exact H3|exact H4].
Qed.

(** In every reachable registry no URI is registered twice. *)
Theorem registry_unique_uris (r : BrokerListManager) :
  registry_reachable r -> NoDup (get_broker_uris r).
Proof. apply registry_reachable_nodup. Qed.

(** In every reachable registry each record's score is the one
    [update_score] computes from its own metrics and availability with the
    weights of the registry's category. *)
Theorem registry_scores_consistent (r : BrokerListManager) :
  registry_reachable r ->
  Forall (fun b => (score b == score (update_score (weights_for (category r)) b))%Q) (brokers r).
Proof. apply registry_reachable_consistent. Qed.

(** [mark_broker_available] after [mark_broker_unavailable] does what
    [mark_broker_available] alone does, on every registry; and on a
    reachable registry where the broker is available the pair gives back
    every record (the score as a number), the current index and the
    category. *)
Theorem mark_unavailable_available_roundtrip (r : BrokerListManager) (u : string) :
  mark_broker_available (mark_broker_unavailable r u) u = mark_broker_available r u /\
  (registry_reachable r -> is_broker_available r u = true ->
   Forall2 same_broker (brokers (mark_broker_available (mark_broker_unavailable r u) u)) (brokers r) /\
   current_broker_index (mark_broker_available (mark_broker_unavailable r u) u) = current_broker_index r /\
   category (mark_broker_available (mark_broker_unavailable r u) u) = category r).
Proof.
  assert (Heq : mark_broker_available (mark_broker_unavailable r u) u = mark_broker_available r u).
  { unfold mark_broker_available, mark_broker_unavailable. cbn [brokers current_broker_index category].
    rewrite update_first_compose by reflexivity. reflexivity. }
  split; [exact Heq|]. intros Hr Ha. rewrite Heq. split; [|split; reflexivity].
  apply mark_available_restores; [apply registry_reachable_consistent, Hr|exact Ha].
Qed.

(** When [find_best_broker] returns a record, it is available, no
    available record after it has a higher score, and every available
    record before it has a strictly lower score: the first record of
    maximal score among the available ones. *)
Theorem find_best_broker_first_max (r : BrokerListManager) (b : BrokerInfo) :
  find_best_broker r = Some b ->
  exists pre post, brokers r = (pre ++ b :: post)%list /\ is_available b = true /\
    Forall (fun b' => is_available b' = true -> (score b' < score b)%Q) pre /\
    Forall (fun b' => is_available b' = true -> (score b' <= score b)%Q) post.
Proof.
  unfold find_best_broker. destruct (brokers r) as [|b0 bs]; [discriminate|]. intros H.
  destruct (find_best_loop_some _ _ _ _ H) as [(Hd & _)|(pre & post & Hbs & Ha & _ & Hpre & Hpost)];
    [discriminate|].
  exists pre, post. auto.
Qed.

(** Removing a broker other than the current one keeps the current one
    current. When [u] is registered, the record erased is its first one,
    and the current index moves down by one exactly when that record came
    before the current one; when [u] is not registered nothing changes. *)
Theorem remove_other_keeps_current (r : BrokerListManager) (c : BrokerInfo) (u : string) :
  get_current_broker r = Some c -> u <> uri c ->
  get_current_broker (remove_broker r u) = Some c /\
  ((exists pre b post, brokers r = (pre ++ b :: post)%list /\ uri b = u /\ ~ In u (map uri pre) /\
      brokers (remove_broker r u) = (pre ++ post)%list /\
      current_broker_index (remove_broker r u) =
        (if Nat.ltb (length pre) (current_broker_index r) then current_broker_index r - 1
         else current_broker_index r)) \/
   (~ In u (map uri (brokers r)) /\ remove_broker r u = r)).
Proof.
  intros Hc Hne. destruct (get_current_some r c Hc) as (Hlt & Hn). split.
  - unfold remove_broker. destruct (find_index u (brokers r)) as [i|] eqn:Ei; [|exact Hc].
    destruct (find_index_some u _ i Ei) as (bi & Hbi & Hui).
    pose proof (find_index_lt u _ i Ei) as Hil.
    assert (Hic : i <> current_broker_index r).
    { intros Heq. rewrite Heq, Hn in Hbi. injection Hbi as <-. congruence. }
    rewrite get_current_broker_eq. cbn [brokers current_broker_index].
    rewrite (proj2 (Nat.eqb_neq _ _) Hic). rewrite erase_at_length by exact Hil.
    destruct (Nat.ltb i (current_broker_index r)) eqn:El.
    + apply Nat.ltb_lt in El.
      replace (Nat.ltb (current_broker_index r - 1) (length (brokers r) - 1)) with true
        by (symmetry; apply Nat.ltb_lt; lia).
      rewrite nth_error_erase_at_ge by lia.
      replace (S (current_broker_index r - 1)) with (current_broker_index r) by lia. exact Hn.
    + apply Nat.ltb_ge in El.
      replace (Nat.ltb (current_broker_index r) (length (brokers r) - 1)) with true
        by (symmetry; apply Nat.ltb_lt; lia).
      rewrite nth_error_erase_at_lt by lia. exact Hn.
  - destruct (existsb (has_uri u) (brokers r)) eqn:Ex.
    + left. destruct (find_index_split u _ Ex) as (pre & b & post & Hbs & Hu & Hnp & Hf).
      exists pre, b, post. split; [exact Hbs|]. split; [exact Hu|]. split; [exact Hnp|].
      assert (Hic : length pre <> current_broker_index r).
      { intros Heq. rewrite <- Heq, Hbs, nth_error_app2, Nat.sub_diag in Hn by lia.
        cbn in Hn. injection Hn as <-. congruence. }
      unfold remove_broker. rewrite Hf. cbn [brokers current_broker_index].
      rewrite (proj2 (Nat.eqb_neq _ _) Hic). split.
      * rewrite Hbs. apply erase_at_app_len.
      * destruct (Nat.ltb _ _); reflexivity.
    + right. split.
      * intros Hin. apply existsb_has_uri in Hin. congruence.
      * unfold remove_broker. rewrite (find_index_none u _ Ex). reflexivity.
Qed.

Lemma nth_error_last_index {A} (l : list A) (d : A) :
  l <> [] -> nth_error l (length l - 1) = Some (last l d).
Proof.
  induction l as [|x l IH]; intros H; [contradiction|].
  destruct l as [|y l]; [reflexivity|].
  replace (length (x :: y :: l) - 1) with (S (length (y :: l) - 1)) by (simpl; lia).
  cbn [nth_error]. rewrite IH by discriminate. reflexivity.
Qed.

(** In a reachable registry, removing the current broker drops its record
    and makes current the broker that followed it, or, when it was the
    last one, the new last broker (none when the registry becomes empty). *)
Theorem remove_current_broker (r : BrokerListManager) (c : BrokerInfo) :
  registry_reachable r -> get_current_broker r = Some c ->
  exists pre post, brokers r = (pre ++ c :: post)%list /\
    brokers (remove_broker r (uri c)) = (pre ++ post)%list /\
    get_current_broker (remove_broker r (uri c)) =
      match post with
      | b :: _ => Some b
      | [] => match pre with [] => None | _ => Some (last pre c) end
      end.
Proof.
  intros Hr Hc. destruct (get_current_some r c Hc) as (Hlt & Hn).
  destruct (nth_error_split _ _ Hn) as (pre & post & Hbs & Hlen).
  exists pre, post. split; [exact Hbs|].
  pose proof (registry_reachable_nodup r Hr) as Hnd. rewrite Hbs, map_app in Hnd. cbn [map] in Hnd.
  assert (Hnotin : ~ In (uri c) (map uri pre)).
  { intros H. apply (NoDup_remove_2 _ _ _ Hnd). apply in_app_iff. left. exact H. }
  assert (Hfi : find_index (uri c) (brokers r) = Some (length pre)).
  { rewrite Hbs, find_index_app by exact Hnotin. cbn [find_index]. unfold has_uri.
    rewrite String.eqb_refl. cbn [option_map]. rewrite Nat.add_0_r. reflexivity. }
  unfold remove_broker. rewrite Hfi. cbn [brokers current_broker_index].
  rewrite Hbs, erase_at_app_len, <- Hlen, Nat.eqb_refl.
  split; [reflexivity|].
  destruct post as [|b post'].
  - rewrite app_nil_r. destruct pre as [|p0 pre']; [reflexivity|].
    rewrite Nat.leb_refl. rewrite get_current_broker_eq. cbn [brokers current_broker_index].
    replace (Nat.ltb (length (p0 :: pre') - 1) (length (p0 :: pre'))) with true
      by (symmetry; apply Nat.ltb_lt; simpl; lia).
    apply nth_error_last_index. discriminate.
  - destruct (pre ++ b :: post')%list as [|z zs] eqn:Ez; [destruct pre; discriminate|].
    rewrite <- Ez, length_app. cbn [length].
    replace (Nat.leb (length pre + S (length post')) (length pre)) with false
      by (symmetry; apply Nat.leb_gt; lia).
    rewrite get_current_broker_eq. cbn [brokers current_broker_index].
    rewrite length_app. cbn [length].
    replace (Nat.ltb (length pre) (length pre + S (length post'))) with true
      by (symmetry; apply Nat.ltb_lt; lia).
    rewrite nth_error_app2, Nat.sub_diag by lia. reflexivity.
Qed.

(** Once a registered broker is unavailable it stays registered and
    unavailable under every registry call the manager and the Monitor make,
    but removing it or clearing the list: a successful measurement does not
    make it available again. *)
Theorem unavailable_sticky (r r' : BrokerListManager) (u : string) :
  runtime_step r r' -> In u (get_broker_uris r) -> is_broker_available r u = false ->
  r' = remove_broker r u \/ r' = clear_brokers r \/
  (In u (get_broker_uris r') /\ is_broker_available r' u = false).
Proof.
  unfold get_broker_uris. intros Hs Hin Hun.
  assert (Hmark : forall v, In u (map uri (brokers (mark_broker_unavailable r v))) /\
                            is_broker_available (mark_broker_unavailable r v) u = false).
  { intros v. split; [rewrite mark_unavailable_uris; exact Hin|apply mark_unavailable_keeps, Hun]. }
  assert (Hupd : forall v lat bw cc now,
            In u (map uri (brokers (update_broker_metrics r v lat bw cc now))) /\
            is_broker_available (update_broker_metrics r v lat bw cc now) u = false).
  { intros v lat bw cc now. destruct (update_metrics_availability r v u lat bw cc now) as (H1 & H2).
    rewrite H1, H2. auto. }
  destruct Hs as [r v now|r v|r|r v|r v|meas r v now|meas r v now|meas r v now].
  - right; right. unfold add_broker. destruct (existsb (has_uri v) (brokers r)); [auto|].
    unfold is_broker_available. cbn [brokers]. rewrite map_app, in_app_iff.
    rewrite is_available_app by exact Hin. auto.
  - destruct (string_dec v u) as [->|Hne]; [left; reflexivity|]. right; right.
    unfold remove_broker. destruct (find_index v (brokers r)) as [i|] eqn:Ei; [|auto].
    destruct (find_index_some v _ i Ei) as (bi & Hbi & Hvi). subst v.
    destruct (erase_other u i (brokers r) bi Hbi Hne) as (H1 & H2).
    unfold is_broker_available in *. cbn [brokers]. rewrite H1, H2. auto.
  - right; left; reflexivity.
  - right; right. unfold is_broker_available in *. rewrite set_current_brokers. auto.
  - right; right. apply Hmark.
  - right; right. unfold measure_latency. destruct meas as [lat|]; [|apply Hmark].
    destruct (find_broker v (brokers r)); [apply Hupd|auto].
  - right; right. unfold measure_bandwidth. destruct meas as [bw|]; [|apply Hmark].
    destruct (find_broker v (brokers r)); [apply Hupd|auto].
  - right; right. unfold check_connection_count. destruct meas as [cc|]; [|auto].
    destruct (find_broker v (brokers r)); [apply Hupd|auto].
Qed.

(** [set_current_broker(u)] answers whether [u] is registered; when it is,
    [u] becomes the current broker's URI, and the records are untouched;
    when it is not, nothing changes. *)
Theorem set_current_broker_spec (r : BrokerListManager) (u : string) :
  (fst (set_current_broker r u) = true <-> In u (get_broker_uris r)) /\
  brokers (snd (set_current_broker r u)) = brokers r /\
  (In u (get_broker_uris r) -> get_current_broker_uri (snd (set_current_broker r u)) = u) /\
  (~ In u (get_broker_uris r) -> snd (set_current_broker r u) = r).
Proof.
  unfold get_broker_uris. split; [|split; [apply set_current_brokers|split]].
  - unfold set_current_broker. destruct (find_index u (brokers r)) as [i|] eqn:E; cbn [fst].
    + split; [intros _|reflexivity]. destruct (find_index_some u _ i E) as (b & Hb & <-).
      apply in_map. apply (nth_error_In _ _ Hb).
    + split; [discriminate|]. intros H. destruct (find_index_in u _ H) as (i & b & Hi & _). congruence.
  - intros H. pose proof (set_current_uri r u H) as Hc. unfold current_uri in Hc.
    unfold get_current_broker_uri. destruct (get_current_broker _); [|discriminate].
    injection Hc as Hc. exact Hc.
  - intros H. unfold set_current_broker. destruct (find_index u (brokers r)) eqn:E; [|reflexivity].
    exfalso. destruct (find_index_some u _ _ E) as (b & Hb & <-). apply H.
    apply in_map. apply (nth_error_In _ _ Hb).
Qed.

End RegistryExtra.

Module RegistryWitnesses.
Import RegistryExtra.

(** Brokers a and b registered for a camera, a current, b measured. *)
Definition sample_registry : BrokerListManager :=
  let r := add_broker (new_registry "camera") "tcp://a:1883" 0 in
  let r := add_broker r "tcp://b:1883" 0 in
  update_broker_metrics r "tcp://b:1883" 20%Q 500000%Q 10%Z 1.

Lemma sample_registry_reachable : registry_reachable sample_registry.
Proof.
  unfold sample_registry.
  eapply rr_step; [|apply rs_update_metrics].
  eapply rr_step; [|apply rs_add].
  eapply rr_step; [|apply rs_add].
  apply rr_init.
Qed.

Definition dummy_broker : BrokerInfo := new_broker "" 0.

Lemma registry_unique_uris_witness :
  registry_reachable sample_registry /\ NoDup (get_broker_uris sample_registry).
Proof.
  split; [exact sample_registry_reachable|].
  exact (registry_unique_uris sample_registry sample_registry_reachable).
Defined.

Lemma registry_scores_consistent_witness :
  registry_reachable sample_registry /\
  Forall (fun b => (score b == score (update_score (weights_for (category sample_registry)) b))%Q)
    (brokers sample_registry).
Proof.
  split; [exact sample_registry_reachable|].
  exact (registry_scores_consistent sample_registry sample_registry_reachable).
Defined.

Lemma mark_unavailable_available_roundtrip_witness :
  registry_reachable sample_registry /\ is_broker_available sample_registry "tcp://b:1883" = true /\
  Forall2 same_broker
    (brokers (mark_broker_available (mark_broker_unavailable sample_registry "tcp://b:1883") "tcp://b:1883"))
    (brokers sample_registry).
Proof.
  assert (Ha : is_broker_available sample_registry "tcp://b:1883" = true) by (vm_compute; reflexivity).
  split; [exact sample_registry_reachable|]. split; [exact Ha|].
  exact (proj1 (proj2 (mark_unavailable_available_roundtrip sample_registry "tcp://b:1883")
                  sample_registry_reachable Ha)).
Defined.

Lemma find_best_broker_first_max_witness :
  find_best_broker sample_registry = Some (last (brokers sample_registry) dummy_broker) /\
  exists pre post, brokers sample_registry = (pre ++ last (brokers sample_registry) dummy_broker :: post)%list /\
    is_available (last (brokers sample_registry) dummy_broker) = true /\
    Forall (fun b' => is_available b' = true ->
                      (score b' < score (last (brokers sample_registry) dummy_broker))%Q) pre /\
    Forall (fun b' => is_available b' = true ->
                      (score b' <= score (last (brokers sample_registry) dummy_broker))%Q) post.
Proof.
  assert (H : find_best_broker sample_registry = Some (last (brokers sample_registry) dummy_broker))
    by (vm_compute; reflexivity).
  split; [exact H|]. exact (find_best_broker_first_max _ _ H).
Defined.

Lemma remove_other_keeps_current_witness :
  get_current_broker sample_registry = Some (hd dummy_broker (brokers sample_registry)) /\
  "tcp://b:1883" <> uri (hd dummy_broker (brokers sample_registry)) /\
  get_current_broker (remove_broker sample_registry "tcp://b:1883")
    = Some (hd dummy_broker (brokers sample_registry)).
Proof.
  assert (Hc : get_current_broker sample_registry = Some (hd dummy_broker (brokers sample_registry)))
    by (vm_compute; reflexivity).
  assert (Hne : "tcp://b:1883" <> uri (hd dummy_broker (brokers sample_registry)))
    by (vm_compute; discriminate).
  split; [exact Hc|]. split; [exact Hne|].
  exact (proj1 (remove_other_keeps_current _ _ _ Hc Hne)).
Defined.

Lemma remove_current_broker_witness :
  registry_reachable sample_registry /\
  get_current_broker sample_registry = Some (hd dummy_broker (brokers sample_registry)) /\
  exists pre post,
    brokers sample_registry = (pre ++ hd dummy_broker (brokers sample_registry) :: post)%list /\
    brokers (remove_broker sample_registry (uri (hd dummy_broker (brokers sample_registry))))
      = (pre ++ post)%list /\
    get_current_broker (remove_broker sample_registry (uri (hd dummy_broker (brokers sample_registry)))) =
      match post with
      | b :: _ => Some b
      | [] => match pre with [] => None | _ => Some (last pre (hd dummy_broker (brokers sample_registry))) end
      end.
Proof.
  assert (Hc : get_current_broker sample_registry = Some (hd dummy_broker (brokers sample_registry)))
    by (vm_compute; reflexivity).
  split; [exact sample_registry_reachable|]. split; [exact Hc|].
  exact (remove_current_broker _ _ sample_registry_reachable Hc).
Defined.

(** b fails a latency probe, then a bandwidth probe succeeds. *)
Definition probed_registry : BrokerListManager :=
  measure_latency None sample_registry "tcp://b:1883" 2.

Lemma unavailable_sticky_witness :
  runtime_step probed_registry (measure_bandwidth (Some 800000%Q) probed_registry "tcp://b:1883" 3) /\
  In "tcp://b:1883" (get_broker_uris probed_registry) /\
  is_broker_available probed_registry "tcp://b:1883" = false /\
  (measure_bandwidth (Some 800000%Q) probed_registry "tcp://b:1883" 3 = remove_broker probed_registry "tcp://b:1883" \/
   measure_bandwidth (Some 800000%Q) probed_registry "tcp://b:1883" 3 = clear_brokers probed_registry \/
   (In "tcp://b:1883" (get_broker_uris (measure_bandwidth (Some 800000%Q) probed_registry "tcp://b:1883" 3)) /\
    is_broker_available (measure_bandwidth (Some 800000%Q) probed_registry "tcp://b:1883" 3) "tcp://b:1883"
      = false)).
Proof.
  assert (Hs : runtime_step probed_registry
                 (measure_bandwidth (Some 800000%Q) probed_registry "tcp://b:1883" 3))
    by apply ru_bandwidth.
  assert (Hin : In "tcp://b:1883" (get_broker_uris probed_registry))
    by (vm_compute; right; left; reflexivity).
  assert (Hun : is_broker_available probed_registry "tcp://b:1883" = false)
    by (vm_compute; reflexivity).
  split; [exact Hs|]. split; [exact Hin|]. split; [exact Hun|].
  exact (unavailable_sticky _ _ _ Hs Hin Hun).
Defined.

End RegistryWitnesses.

(** * More of [SelfAdaptiveMqttManager] *)

(** The [std::runtime_error] that [subscribe] and [unsubscribe] throw when
    the manager is not connected. *)
Definition NOT_CONNECTED : string := "not connected".

Section ManagerOps.

Variable reachable : string -> bool.
Variable pub_ok : list (string * Message) -> string -> Message -> bool.

(** [void disconnect()]: an exception of [client_->disconnect()] is caught,
    so its outcome does not reach the state; [destroy_client()] resets
    [client_]. *)
Definition disconnect (m : Manager) : Manager := set_client (set_flags m false false) None.

(** [mqtt::token_ptr subscribe(const std::string& topic, int qos)];
    [call u topic qos] is the outcome of [client_->subscribe] on the client
    bound to [u]. *)
Definition subscribe {A} (call : string -> string -> Z -> Outcome A) (m : Manager)
    (t : string) (q : Z) : Outcome A :=
  if negb (is_connected m) then Raised NOT_CONNECTED
  else match client m with
       | None => NullClient
       | Some u => call u t q
       end.

(** [mqtt::token_ptr unsubscribe(const std::string& topic)] *)
Definition unsubscribe {A} (call : string -> string -> Outcome A) (m : Manager) (t : string)
  : Outcome A :=
  if negb (is_connected m) then Raised NOT_CONNECTED
  else match client m with
       | None => NullClient
       | Some u => call u t
       end.

(** [void connection_lost(const std::string& cause)]; the user's
    [on_connection_lost_] callback does not touch the manager. *)
Definition connection_lost (m : Manager) : Manager :=
  switch_to_best_broker reachable pub_ok (set_flags m false (is_connecting m)).

(** [void connected(const std::string& cause)] *)
Definition connected (m : Manager) : Manager := set_flags m true (is_connecting m).

(** [size_t get_queued_message_count() const] *)
Definition get_queued_message_count (m : Manager) : nat := length (message_queue m).

(** [void clear_message_queue()] *)
Definition clear_message_queue (m : Manager) : Manager := set_queue m [].

(** The calls a running manager goes through: its public operations, the
    client callbacks, the Monitor's [on_metrics_updated] (which ends in
    [on_broker_switch]) and the registry calls of the manager and the
    Monitor on the shared registry. *)
Inductive mgr_step : Manager -> Manager -> Prop :=
| ms_publish m t p q ret now : mgr_step m (snd (publish pub_ok m t p q ret now))
| ms_connect m : mgr_step m (snd (connect reachable pub_ok m))
| ms_disconnect m : mgr_step m (disconnect m)
| ms_connection_lost m : mgr_step m (connection_lost m)
| ms_connected m : mgr_step m (connected m)
| ms_broker_switch m u : mgr_step m (on_broker_switch reachable pub_ok u m)
| ms_clear_queue m : mgr_step m (clear_message_queue m)
| ms_registry m r : runtime_step (broker_manager m) r -> mgr_step m (set_registry m r).

Inductive mgr_reachable : Manager -> Prop :=
| mr_init c : mgr_reachable (new_manager c)
| mr_step m m' : mgr_reachable m -> mgr_step m m' -> mgr_reachable m'.

End ManagerOps.

Module ManagerExtra.

(** The queue after is what is left of the queue before once a prefix has
    gone out. *)
Definition queue_suffix (m m' : Manager) : Prop :=
  exists pre, message_queue m = (pre ++ message_queue m')%list.

Lemma queue_suffix_refl (m m' : Manager) : message_queue m' = message_queue m -> queue_suffix m m'.
Proof. intros H. exists []. rewrite H. reflexivity. Qed.

Lemma queue_suffix_trans (m1 m2 m3 : Manager) :
  queue_suffix m1 m2 -> queue_suffix m2 m3 -> queue_suffix m1 m3.
Proof.
  intros (p1 & H1) (p2 & H2). exists (p1 ++ p2)%list. rewrite H1, H2, app_assoc. reflexivity.
Qed.

Section Oracles.
Variable reachable : string -> bool.
Variable pub_ok : list (string * Message) -> string -> Message -> bool.

Lemma resend_loop_suffix (u : string) (log : list (string * Message)) (q : list QueuedMessage) :
  exists pre, q = (pre ++ fst (resend_loop pub_ok u log q))%list.
Proof.
  revert log. induction q as [|x q IH]; intros log; simpl; [exists []; reflexivity|].
  destruct (pub_ok log u (to_message x)).
  - destruct (IH (log ++ [(u, to_message x)])%list) as (pre & Hpre). exists (x :: pre).
    cbn [app]. rewrite <- Hpre. reflexivity.
  - exists []. reflexivity.
Qed.

Lemma resend_suffix (m : Manager) : queue_suffix m (resend_queued_messages pub_ok m).
Proof.
  unfold resend_queued_messages. destruct (client m) as [u|]; [|apply queue_suffix_refl; reflexivity].
  destruct (resend_loop_suffix u (delivered m) (message_queue m)) as (pre & Hpre).
  destruct (resend_loop pub_ok u (delivered m) (message_queue m)) as (q & log) eqn:E.
  exists pre. exact Hpre.
Qed.

Lemma on_connected_suffix (u : string) (idx : nat) (m : Manager) :
  queue_suffix m (on_connected pub_ok u idx m).
Proof.
  unfold on_connected. eapply queue_suffix_trans; [|apply resend_suffix].
  apply queue_suffix_refl. reflexivity.
Qed.

(** A step that leaves the queue as it is, followed by one that shrinks it. *)
Local Ltac via lem :=
  eapply queue_suffix_trans; [|apply lem]; apply queue_suffix_refl; reflexivity.

Lemma connect_loop_suffix (uris : list string) (i : nat) (m : Manager) :
  queue_suffix m (snd (connect_loop reachable pub_ok uris i m)).
Proof.
  revert i m. induction uris as [|target rest IH]; intros i m; cbn [connect_loop].
  - apply queue_suffix_refl. reflexivity.
  - unfold try_connect_to_broker. destruct (reachable target); cbn [snd].
    + via on_connected_suffix.
    + via IH.
Qed.

Lemma connect_suffix (m : Manager) : queue_suffix m (snd (connect reachable pub_ok m)).
Proof.
  unfold connect. destruct (is_connected m || is_connecting m); [apply queue_suffix_refl; reflexivity|].
  destruct (available_uris _) as [|x xs]; [apply queue_suffix_refl; reflexivity|].
  via connect_loop_suffix.
Qed.

Lemma hcf_suffix (fuel : nat) (failed : string) (m : Manager) :
  queue_suffix m (handle_connection_failure reachable pub_ok fuel failed m).
Proof.
  revert failed m. induction fuel as [|fuel IH]; intros failed m; cbn [handle_connection_failure];
    destruct (available_uris _) as [|x xs]; try (apply queue_suffix_refl; reflexivity);
    destruct (Nat.ltb _ _); try (apply queue_suffix_refl; reflexivity);
    unfold try_connect_to_broker; destruct (reachable _);
    try via on_connected_suffix; try (apply queue_suffix_refl; reflexivity).
  via IH.
Qed.

Lemma queue_suffix_same_r (m m' m'' : Manager) :
  queue_suffix m m' -> message_queue m'' = message_queue m' -> queue_suffix m m''.
Proof. intros (pre & H) E. exists pre. rewrite E. exact H. Qed.

Lemma switch_suffix (m : Manager) : queue_suffix m (switch_to_best_broker reachable pub_ok m).
Proof.
  unfold switch_to_best_broker. destruct (is_connecting m); [apply queue_suffix_refl; reflexivity|].
  destruct (available_uris _) as [|x xs]; [apply queue_suffix_refl; reflexivity|].
  unfold try_connect_to_broker. destruct (reachable _).
  - eapply queue_suffix_trans; [|apply on_connected_suffix].
    apply queue_suffix_refl. destruct (Nat.leb _ _); reflexivity.
  - eapply queue_suffix_same_r; [|reflexivity].
    eapply queue_suffix_trans; [|apply hcf_suffix].
    apply queue_suffix_refl. destruct (Nat.leb _ _); reflexivity.
Qed.


Lemma queue_suffix_length (m m' : Manager) :
  queue_suffix m m' -> length (message_queue m') <= length (message_queue m).
Proof. intros (pre & H). rewrite H, length_app. lia. Qed.

Lemma hcf_unreachable (fuel : nat) (failed : string) (m : Manager) :
  (forall u, reachable u = false) ->
  let m' := handle_connection_failure reachable pub_ok fuel failed m in
  is_connected m' = is_connected m /\ message_queue m' = message_queue m /\
  delivered m' = delivered m.
Proof.
  intros Hu. revert failed m. induction fuel as [|fuel IH]; intros failed m; cbn [handle_connection_failure];
    destruct (available_uris _) as [|x xs]; try (repeat split; reflexivity);
    destruct (Nat.ltb _ _); try (repeat split; reflexivity);
    unfold try_connect_to_broker; rewrite Hu; try (repeat split; reflexivity).
  match goal with
  | |- context [handle_connection_failure reachable pub_ok fuel ?fl ?m0] =>
      destruct (IH fl m0) as (H1 & H2 & H3)
  end.
  cbn zeta. rewrite H1, H2, H3. repeat split; reflexivity.
Qed.

End Oracles.
End ManagerExtra.

Module ManagerExtra2.
Import ManagerExtra.

(** Whatever the manager goes through (publishes, connects, disconnects,
    connection losses, broker switches, callbacks, registry updates by the
    Monitor), its offline queue never holds more than [MAX_QUEUE_SIZE]
    messages; and [connect], [switch_to_best_broker] and
    [handle_connection_failure] only ever take messages off the front of
    the queue. *)
Theorem manager_queue_bounded (reachable : string -> bool)
    (pub_ok : list (string * Message) -> string -> Message -> bool) :
  (forall m, mgr_reachable reachable pub_ok m -> get_queued_message_count m <= MAX_QUEUE_SIZE) /\
  (forall m, queue_suffix m (snd (connect reachable pub_ok m)) /\
             queue_suffix m (switch_to_best_broker reachable pub_ok m) /\
             forall fuel failed, queue_suffix m (handle_connection_failure reachable pub_ok fuel failed m)).
Proof.
  split.
  2: { intros m. split; [apply connect_suffix|]. split; [apply switch_suffix|].
       intros fuel failed. apply hcf_suffix. }
  intros m.
  unfold get_queued_message_count.
  induction 1 as [c|m m' _ IH Hs]; [simpl; unfold MAX_QUEUE_SIZE; lia|].
  destruct Hs as [m t p q ret now|m|m|m|m|m u|m|m r _].
  - unfold publish. destruct (is_connected m); cbn [negb].
    + destruct (client m) as [u|]; [|exact IH].
      destruct (pub_ok (delivered m) u (mkMessage t p q ret)); [exact IH|].
      apply enqueue_length, IH.
    + apply enqueue_length, IH.
  - apply (Nat.le_trans _ _ _ (queue_suffix_length _ _ (connect_suffix reachable pub_ok m)) IH).
  - exact IH.
  - unfold connection_lost.
    exact (Nat.le_trans _ _ _
             (queue_suffix_length _ _ (switch_suffix reachable pub_ok (set_flags m false (is_connecting m))))
             IH).
  - exact IH.
  - unfold on_broker_switch. destruct (should_switch_broker _); [|exact IH].
    apply (Nat.le_trans _ _ _ (queue_suffix_length _ _ (switch_suffix reachable pub_ok _)) IH).
  - simpl. lia.
  - exact IH.
Qed.


(** When no broker can be reached, a connection loss (outside a connection
    attempt) leaves the manager disconnected and no longer connecting,
    with its queue and delivery log as they were: later publishes are
    queued. *)
Theorem connection_lost_unreachable (reachable : string -> bool)
    (pub_ok : list (string * Message) -> string -> Message -> bool) (m : Manager) :
  (forall u, reachable u = false) -> is_connecting m = false ->
  is_connected (connection_lost reachable pub_ok m) = false /\
  is_connecting (connection_lost reachable pub_ok m) = false /\
  message_queue (connection_lost reachable pub_ok m) = message_queue m /\
  delivered (connection_lost reachable pub_ok m) = delivered m.
Proof.
  intros Hu Hc. unfold connection_lost, switch_to_best_broker. cbn [is_connecting set_flags].
  rewrite Hc.
  destruct (available_uris _) as [|x xs]; [repeat split; reflexivity|].
  unfold try_connect_to_broker. rewrite Hu.
  match goal with
  | |- context [handle_connection_failure reachable pub_ok ?f ?fl ?m0] =>
      destruct (hcf_unreachable reachable pub_ok f fl m0 Hu) as (H1 & H2 & H3)
  end.
  cbn [is_connected is_connecting message_queue delivered set_connecting set_flags] in *.
  rewrite H1, H2, H3. destruct (Nat.leb _ _); repeat split; reflexivity.
Qed.

End ManagerExtra2.

Module ManagerWitnesses.
Import ManagerExtra2.

Definition no_broker (_ : string) : bool := false.
Definition any_broker (_ : string) : bool := true.
Definition every_publish (_ : list (string * Message)) (_ : string) (_ : Message) : bool := true.

(** A manager that registers broker a and publishes while offline. *)
Definition offline_publisher : Manager :=
  let m := new_manager "sensor" in
  let m := set_registry m (add_broker (broker_manager m) "tcp://a:1883" 0) in
  snd (publish every_publish m "t/1" "x" 1%Z false 1).

Lemma offline_publisher_reachable : mgr_reachable any_broker every_publish offline_publisher.
Proof.
  unfold offline_publisher.
  eapply mr_step; [|apply ms_publish].
  eapply mr_step; [|apply ms_registry, ru_add].
  apply mr_init.
Qed.

Lemma manager_queue_bounded_witness :
  mgr_reachable any_broker every_publish offline_publisher /\
  get_queued_message_count offline_publisher <= MAX_QUEUE_SIZE.
Proof.
  split; [exact offline_publisher_reachable|].
  exact (proj1 (manager_queue_bounded any_broker every_publish) offline_publisher offline_publisher_reachable).
Defined.

(** Connected to broker a, then the connection drops and no broker answers. *)
Definition connected_to_a : Manager :=
  snd (connect any_broker every_publish
         (set_registry offline_publisher
            (add_broker (broker_manager offline_publisher) "tcp://b:1883" 0))).

Lemma connection_lost_unreachable_witness :
  (forall u, no_broker u = false) /\ is_connecting connected_to_a = false /\
  is_connected (connection_lost no_broker every_publish connected_to_a) = false /\
  is_connecting (connection_lost no_broker every_publish connected_to_a) = false /\
  message_queue (connection_lost no_broker every_publish connected_to_a) = message_queue connected_to_a /\
  delivered (connection_lost no_broker every_publish connected_to_a) = delivered connected_to_a.
Proof.
  assert (Hu : forall u, no_broker u = false) by reflexivity.
  assert (Hc : is_connecting connected_to_a = false) by (vm_compute; reflexivity).
  split; [exact Hu|]. split; [exact Hc|].
  exact (connection_lost_unreachable no_broker every_publish connected_to_a Hu Hc).
Defined.

End ManagerWitnesses.

Module ScoreExtra.
Local Open Scope Q_scope.

Lemma Qltb_true (a b : Q) : a < b -> Qltb a b = true.
Proof. apply Qltb_spec. Qed.

Lemma div_le_compat (x y d : Q) : 0 < d -> x <= y -> x / d <= y / d.
Proof.
  intros Hd Hle. apply Qmult_le_compat_r; [exact Hle|].
  apply Qlt_le_weak, Qinv_lt_0_compat, Hd.
Qed.

Lemma one_minus_le (y z : Q) : z <= y -> 1 - y <= 1 - z.
Proof. intros H. apply Qplus_le_compat; [apply Qle_refl|apply Qopp_le_compat, H]. Qed.

Lemma latency_score_antitone (b b' : BrokerInfo) :
  0 < latency b -> latency b <= latency b' -> latency_score b' <= latency_score b.
Proof.
  intros H0 Hle. unfold latency_score.
  rewrite (Qltb_true _ _ H0), (Qltb_true _ _ (Qlt_le_trans _ _ _ H0 Hle)).
  apply Q.max_le_compat_l. apply one_minus_le, div_le_compat; [reflexivity|exact Hle].
Qed.

Lemma bandwidth_score_monotone (b b' : BrokerInfo) :
  bandwidth b' <= bandwidth b -> bandwidth_score b' <= bandwidth_score b.
Proof.
  intros Hle. unfold bandwidth_score, BANDWIDTH_BASELINE.
  destruct (Qltb 0 (bandwidth b')) eqn:E'; destruct (Qltb 0 (bandwidth b)) eqn:E.
  - apply Q.min_le_compat_l. apply div_le_compat; [reflexivity|exact Hle].
  - apply Qltb_spec in E'. exfalso.
    assert (H : 0 < bandwidth b) by (apply (Qlt_le_trans _ _ _ E' Hle)).
    apply Qltb_spec in H. congruence.
  - apply Q.min_glb; [lra|]. apply Qltb_spec in E. apply Qle_shift_div_l; lra.
  - apply Qle_refl.
Qed.

Lemma connection_score_antitone (b b' : BrokerInfo) :
  (0 < connection_count b)%Z -> (connection_count b <= connection_count b')%Z ->
  connection_score b' <= connection_score b.
Proof.
  intros H0 Hle. unfold connection_score.
  replace (Z.ltb 0 (connection_count b)) with true by (symmetry; apply Z.ltb_lt; exact H0).
  replace (Z.ltb 0 (connection_count b')) with true by (symmetry; apply Z.ltb_lt; lia).
  apply Q.max_le_compat_l. unfold CONNECTION_BASELINE.
  rewrite Zle_Qle in Hle. apply one_minus_le, div_le_compat; [reflexivity|exact Hle].
Qed.

(** For an available broker whose latency and connection count have been
    measured (positive), a higher latency, a lower bandwidth or more
    connections never give a higher score, in every category. A zero
    latency or connection count scores like the worst value. *)
Theorem update_score_monotone (c : string) (b b' : BrokerInfo) :
  is_available b = true -> is_available b' = true ->
  0 < latency b -> latency b <= latency b' ->
  bandwidth b' <= bandwidth b ->
  (0 < connection_count b)%Z -> (connection_count b <= connection_count b')%Z ->
  score (update_score (weights_for c) b') <= score (update_score (weights_for c) b) /\
  latency_score (mkBroker (uri b) 0 (bandwidth b) (connection_count b) (score b) true (last_check b)) == 0 /\
  connection_score (mkBroker (uri b) (latency b) (bandwidth b) 0 (score b) true (last_check b)) == 0.
Proof.
  intros Ha Ha' Hl0 Hl Hbw Hc0 Hc.
  pose proof (latency_score_antitone b b' Hl0 Hl) as L.
  pose proof (bandwidth_score_monotone b b' Hbw) as B.
  pose proof (connection_score_antitone b b' Hc0 Hc) as C.
  split; [|split; reflexivity].
  unfold update_score. cbn [score is_available]. rewrite Ha, Ha'. cbn [negb].
  pose proof (latency_score_bounds b) as Lb. pose proof (latency_score_bounds b') as Lb'.
  destruct (weights_for_cases c) as [E|[E|[E|[E|[E|E]]]]]; rewrite E; cbn [sw_latency sw_bandwidth sw_connection];
    lra.
Qed.

Definition slow_busy : BrokerInfo := mkBroker "tcp://a:1883" 80 200000 40%Z 0 true 1.
Definition fast_idle : BrokerInfo := mkBroker "tcp://b:1883" 20 800000 10%Z 0 true 1.

Lemma update_score_monotone_witness :
  score (update_score (weights_for "drone") slow_busy) <= score (update_score (weights_for "drone") fast_idle).
Proof.
  refine (proj1 (update_score_monotone "drone" fast_idle slow_busy eq_refl eq_refl _ _ _ _ _));
    unfold fast_idle, slow_busy; cbn [latency bandwidth connection_count]; try lra; lia.
Defined.

End ScoreExtra.
